(** * PCR selection masks and composite digests of go-tpm (pcrs.go)

    A shallow embedding of [pcrs.go]: the 24-bit PCR mask, the PCR
    selection, the composite digest and the long PCR info record, followed
    by the properties of these functions.

    Conventions of the embedding:
    - a Go [byte] is [Init.Byte.byte]; arithmetic on it goes through
      [byte.unsigned] and [byte.of_Z], the latter wrapping modulo 256;
    - a Go [int] is a [Z] (the code never overflows an [int]: it only
      compares indices and takes quotients and remainders of them);
    - a Go [[]byte] is a [list byte], and [nil] is the empty list;
    - a Go [(T, error)] result is a [result T];
    - a method with a pointer receiver returns the updated receiver next to
      its result;
    - [glog] is explicit state: the configured verbosity and the lines
      written so far. *)

From Stdlib Require Import ZArith List String Ascii Bool Lia DecimalString.
From Stdlib Require Import DecimalPos DecimalZ Permutation FinFun.
From coqutil Require Import Byte Z.bitblast.
Import ListNotations.
Local Open Scope Z_scope.

(** ** Errors and results *)

(** Go's [errors.New]: an error is its message. *)
Inductive error : Type :=
| errors_New (msg : string).

Definition Error (e : error) : string :=
  match e with errors_New msg => msg end.

(** Go's [strconv.Itoa]: decimal, with a leading minus sign below zero. *)
Definition strconv_Itoa (i : Z) : string :=
  NilZero.string_of_int (Z.to_int i).

Inductive result (A : Type) : Type :=
| Ok (a : A)
| Err (e : error).
Arguments Ok {A} a.
Arguments Err {A} e.

Definition is_ok {A : Type} (r : result A) : bool :=
  match r with Ok _ => true | Err _ => false end.

(** The error kinds of the specification, read off the message the code
    builds at each failure site. *)
Inductive error_kind : Type :=
| InvalidIndex
| MalformedPcrValues
| OtherFailure.

Definition kind_of (e : error) : error_kind :=
  let msg := Error e in
  if (prefix "can't set PCR " msg || prefix "can't check PCR " msg)%bool
  then InvalidIndex
  else if String.eqb msg "pcrs must be a multiple of 20"
       then MalformedPcrValues
       else OtherFailure.

(** ** Bytes *)

(** [uint(x)] on a 64-bit platform. *)
Definition uint (x : Z) : Z := x mod 2 ^ 64.

(** [a | b] and [a & b] on bytes. *)
Definition byte_or (a b : byte) : byte :=
  byte.of_Z (Z.lor (byte.unsigned a) (byte.unsigned b)).

Definition byte_and (a b : byte) : byte :=
  byte.of_Z (Z.land (byte.unsigned a) (byte.unsigned b)).

(** [1 << n] at type [byte]: bits shifted past position 7 are lost. *)
Definition byte_shl1 (n : Z) : byte :=
  byte.of_Z (Z.shiftl 1 n).

(** Big-endian encoding of the low [8 * n] bits of [z] on [n] bytes. *)
Fixpoint be_bytes (n : nat) (z : Z) : list byte :=
  match n with
  | O => []
  | S k => byte.of_Z (Z.shiftr z (8 * Z.of_nat k)) :: be_bytes k z
  end.

Fixpoint be_value (bs : list byte) : Z :=
  match bs with
  | [] => 0
  | b :: rest =>
      byte.unsigned b * 2 ^ (8 * Z.of_nat (List.length rest)) + be_value rest
  end.

(** ** The PCR mask *)

(** Each PCR has a fixed size of 20 bytes. *)
Definition PCRSize : Z := 20.

(** [type pcrMask [3]byte]. *)
Record pcrMask : Type := mkMask { m0 : byte; m1 : byte; m2 : byte }.

Definition zeroMask : pcrMask := mkMask Byte.x00 Byte.x00 Byte.x00.

Definition mask_bytes (pm : pcrMask) : list byte := [m0 pm; m1 pm; m2 pm].

(** [pm[k]] and [pm[k] = v].  Go panics when [k] is outside [0, 3); both
    uses below sit behind the index guard, which keeps [k] inside (see
    [guard_keeps_index_in_bounds]). *)
Definition mask_get (pm : pcrMask) (k : Z) : byte :=
  if k =? 0 then m0 pm else if k =? 1 then m1 pm else m2 pm.

Definition mask_set (pm : pcrMask) (k : Z) (v : byte) : pcrMask :=
  if k =? 0 then mkMask v (m1 pm) (m2 pm)
  else if k =? 1 then mkMask (m0 pm) v (m2 pm)
  else mkMask (m0 pm) (m1 pm) v.

(** [func (pm *pcrMask) setPCR(i int) error]: the mask after the call and
    the returned error. *)
Definition setPCR (pm : pcrMask) (i : Z) : pcrMask * option error :=
  if ((i >=? 24) || (i <? 0))%bool
  then (pm, Some (errors_New ("can't set PCR " ++ strconv_Itoa i)))
  else
    (mask_set pm (Z.quot i 8)
       (byte_or (mask_get pm (Z.quot i 8)) (byte_shl1 (uint (Z.rem i 8)))),
     None).

(** [func (pm pcrMask) isPCRSet(i int) (bool, error)]. *)
Definition isPCRSet (pm : pcrMask) (i : Z) : result bool :=
  if ((i >=? 24) || (i <? 0))%bool
  then Err (errors_New ("can't check PCR " ++ strconv_Itoa i))
  else
    let n := byte_shl1 (uint (Z.rem i 8)) in
    Ok (Byte.eqb (byte_and (mask_get pm (Z.quot i 8)) n) n).

(** The bit at position [p], counted from the least significant one, of
    byte [k] of the mask as it goes on the wire. *)
Definition mask_bit_at (pm : pcrMask) (k p : Z) : bool :=
  Z.testbit (byte.unsigned (nth (Z.to_nat k) (mask_bytes pm) Byte.x00)) p.

(** PCR [j] in the wire layout: byte [j / 8], position [j mod 8]. *)
Definition mask_bit (pm : pcrMask) (j : Z) : bool :=
  mask_bit_at pm (j / 8) (j mod 8).

(** [pm] selects the PCRs listed in [l] and no other. *)
Definition selects_exactly (pm : pcrMask) (l : list Z) : bool :=
  forallb (fun j => Bool.eqb (mask_bit pm j) (existsb (Z.eqb j) l))
          (map Z.of_nat (seq 0 24)).

Definition valid_index (i : Z) : bool := (0 <=? i) && (i <? 24).

(** ** The PCR selection *)

Record pcrSelection : Type := mkSelection { Size : Z; Mask : pcrMask }.

(** The [for _, v := range pcrVals] loop of [newPCRSelection]. *)
Fixpoint newPCRSelection_loop (pcrs : pcrSelection) (pcrVals : list Z)
  : result pcrSelection :=
  match pcrVals with
  | [] => Ok pcrs
  | v :: rest =>
      match setPCR (Mask pcrs) v with
      | (_, Some err) => Err err
      | (pm, None) => newPCRSelection_loop (mkSelection (Size pcrs) pm) rest
      end
  end.

(** [newPCRSelection(pcrVals []int)], returning a selection or an error. *)
Definition newPCRSelection (pcrVals : list Z) : result pcrSelection :=
  newPCRSelection_loop (mkSelection 3 zeroMask) pcrVals.

(** The first index of a list that the guard of [setPCR] rejects. *)
Definition first_invalid (l : list Z) : option Z :=
  find (fun i => negb (valid_index i)) l.

(** ** SHA-1

    [crypto/sha1.Sum] of the Go standard library, written after FIPS 180-4:
    32-bit words are [Z]s reduced modulo [2 ^ 32]. *)

Definition w32 (x : Z) : Z := x mod 2 ^ 32.

Definition rotl (n x : Z) : Z :=
  w32 (Z.lor (Z.shiftl x n) (Z.shiftr x (32 - n))).

(** The message, the byte 0x80, zero bytes up to 56 modulo 64, and the
    length of the message in bits on 8 bytes. *)
Definition sha1_pad (msg : list byte) : list byte :=
  let len := Z.of_nat (List.length msg) in
  msg ++ [Byte.x80]
      ++ repeat Byte.x00 (Z.to_nat ((55 - len) mod 64))
      ++ be_bytes 8 (8 * len).

Fixpoint words_of_bytes (bs : list byte) : list Z :=
  match bs with
  | a :: b :: c :: d :: rest => be_value [a; b; c; d] :: words_of_bytes rest
  | _ => []
  end.

(** The message schedule, newest word first: [n] more words are added to
    the words in [rev_w]. *)
Fixpoint sha1_schedule (n : nat) (rev_w : list Z) : list Z :=
  match n with
  | O => rev_w
  | S k =>
      sha1_schedule k
        (rotl 1 (Z.lxor (Z.lxor (nth 2 rev_w 0) (nth 7 rev_w 0))
                        (Z.lxor (nth 13 rev_w 0) (nth 15 rev_w 0)))
           :: rev_w)
  end.

Definition sha1_f (t b c d : Z) : Z :=
  if t <? 20 then Z.lor (Z.land b c) (Z.land (Z.lnot b) d)
  else if t <? 40 then Z.lxor (Z.lxor b c) d
  else if t <? 60 then Z.lor (Z.lor (Z.land b c) (Z.land b d)) (Z.land c d)
  else Z.lxor (Z.lxor b c) d.

Definition sha1_K (t : Z) : Z :=
  if t <? 20 then 0x5A827999
  else if t <? 40 then 0x6ED9EBA1
  else if t <? 60 then 0x8F1BBCDC
  else 0xCA62C1D6.

Definition sha1_state : Type := (Z * Z * Z * Z * Z)%type.

Fixpoint sha1_rounds (t : Z) (ws : list Z) (s : sha1_state) : sha1_state :=
  match ws with
  | [] => s
  | w :: rest =>
      let '(a, b, c, d, e) := s in
      sha1_rounds (t + 1) rest
        (w32 (rotl 5 a + sha1_f t b c d + e + sha1_K t + w),
         a, rotl 30 b, c, d)
  end.

Definition sha1_block (h : sha1_state) (block : list Z) : sha1_state :=
  let '(a, b, c, d, e) :=
    sha1_rounds 0 (rev (sha1_schedule 64 (rev block))) h in
  let '(h0, h1, h2, h3, h4) := h in
  (w32 (h0 + a), w32 (h1 + b), w32 (h2 + c), w32 (h3 + d), w32 (h4 + e)).

Fixpoint sha1_blocks (fuel : nat) (h : sha1_state) (ws : list Z)
  : sha1_state :=
  match fuel, ws with
  | S k, _ :: _ => sha1_blocks k (sha1_block h (firstn 16 ws)) (skipn 16 ws)
  | _, _ => h
  end.

Definition sha1_init : sha1_state :=
  (0x67452301, 0xEFCDAB89, 0x98BADCFE, 0x10325476, 0xC3D2E1F0).

Definition sha1_Sum (data : list byte) : list byte :=
  let ws := words_of_bytes (sha1_pad data) in
  let '(h0, h1, h2, h3, h4) := sha1_blocks (List.length ws) sha1_init ws in
  be_bytes 4 h0 ++ be_bytes 4 h1 ++ be_bytes 4 h2 ++ be_bytes 4 h3
    ++ be_bytes 4 h4.

(** ** The structure packer *)

(** The two kinds of element [createPCRComposite] hands to [pack]. *)
Inductive packable : Type :=
| PackSelection (s : pcrSelection)
| PackBytes (b : list byte).

(** Modelled from the spec: [pack] lives outside pcrs.go.  The
    specification fixes what it produces for a selection followed by a byte
    slice: the size on 2 bytes, the 3 mask bytes, the length of the slice on
    4 bytes and the bytes themselves, big-endian throughout, nothing in
    between. *)
Definition pack_elt (e : packable) : list byte :=
  match e with
  | PackSelection s => be_bytes 2 (Size s) ++ mask_bytes (Mask s)
  | PackBytes b => be_bytes 4 (Z.of_nat (List.length b)) ++ b
  end.

Definition pack (elts : list packable) : result (list byte) :=
  Ok (List.concat (map pack_elt elts)).

(** ** The long PCR info record *)

(** Modelled from the spec: the type [digest] is declared outside pcrs.go;
    it is a 20-byte array holding a SHA-1 output. *)
Definition digest : Type := list byte.

Definition zeroDigest : digest := repeat Byte.x00 20.

(** Go's [copy(dst, src)]: the first [min(len(dst), len(src))] bytes of
    [dst] are overwritten. *)
Definition copy (dst src : list byte) : list byte :=
  firstn (List.length dst) src ++ skipn (List.length src) dst.

Record pcrInfoLong : Type := mkInfoLong {
  Tag : Z;
  LocAtCreation : byte;
  LocAtRelease : byte;
  PCRsAtCreation : pcrSelection;
  PCRsAtRelease : pcrSelection;
  DigestAtCreation : digest;
  DigestAtRelease : digest
}.

(** ** Diagnostic logging *)

Inductive log_arg : Type :=
| ArgMask (m : pcrMask)
| ArgBytes (b : list byte)
| ArgInfo (p : pcrInfoLong).

Record log_line : Type := mkLine { format : string; args : list log_arg }.

(** The state of [glog]: its verbosity and what was logged so far. *)
Record glog : Type := mkGlog { verbosity : Z; lines : list log_line }.

Definition glog_V (g : glog) (level : Z) : bool := level <=? verbosity g.

Definition glog_Infof (g : glog) (fmt : string) (a : list log_arg) : glog :=
  mkGlog (verbosity g) (lines g ++ [mkLine fmt a]).

(** Computations that may fail and may log. *)
Definition M (A : Type) : Type := glog -> result A * glog.

Definition ret {A : Type} (a : A) : M A := fun g => (Ok a, g).

Definition fail {A : Type} (e : error) : M A := fun g => (Err e, g).

Definition lift {A : Type} (r : result A) : M A := fun g => (r, g).

Definition bind {A B : Type} (m : M A) (k : A -> M B) : M B :=
  fun g =>
    match m g with
    | (Ok a, g') => k a g'
    | (Err e, g') => (Err e, g')
    end.

Notation "x <- m ;; k" := (bind m (fun x => k))
  (at level 61, m at next level, right associativity).
Notation "m ;;; k" := (bind m (fun _ => k))
  (at level 61, right associativity).

(** [if glog.V(level) { glog.Infof(fmt, a...) }]. *)
Definition log_V (level : Z) (fmt : string) (a : list log_arg) : M unit :=
  fun g => (Ok tt, if glog_V g level then glog_Infof g fmt a else g).

(** ** The composite digest *)

(** [func createPCRComposite(mask pcrMask, pcrs []byte) ([]byte, error)]. *)
Definition createPCRComposite (mask : pcrMask) (pcrs : list byte)
  : M (list byte) :=
  if negb (Z.rem (Z.of_nat (List.length pcrs)) PCRSize =? 0)
  then fail (errors_New ("pcrs must be a multiple of " ++ strconv_Itoa PCRSize))
  else
    b <- lift (pack [PackSelection (mkSelection 3 mask); PackBytes pcrs]) ;;
    log_V 2 "composite buffer for mask %s is % x\n" [ArgMask mask; ArgBytes b] ;;;
    let h := sha1_Sum b in
    log_V 2 "SHA1 hash of composite buffer is % x\n" [ArgBytes h] ;;;
    ret h.

(** The buffer the specification describes, field by field. *)
Definition composite_buffer (mask : pcrMask) (pcrValues : list byte)
  : list byte :=
  be_bytes 2 3 ++ mask_bytes mask
    ++ be_bytes 4 (Z.of_nat (List.length pcrValues)) ++ pcrValues.

(** What the two diagnostic lines of [createPCRComposite] add to the log
    when the verbosity lets them through. *)
Definition composite_log (mask : pcrMask) (pcrs : list byte) (g : glog)
  : glog :=
  if glog_V g 2
  then glog_Infof
         (glog_Infof g "composite buffer for mask %s is % x\n"
            [ArgMask mask; ArgBytes (composite_buffer mask pcrs)])
         "SHA1 hash of composite buffer is % x\n"
         [ArgBytes (sha1_Sum (composite_buffer mask pcrs))]
  else g.

(** ** Building the info record *)

Section InfoBuilder.

(** The tag constant of a long PCR info record, declared outside
    pcrs.go. *)
Variable tagPCRInfoLong : Z.

(** The open device and the call that reads PCR values from it, both
    outside pcrs.go. *)
Variable File : Type.
Variable FetchPCRValues : File -> list Z -> result (list byte).

(** [createPCRInfoLong(loc byte, mask pcrMask, pcrVals []byte)]. *)
Definition createPCRInfoLong (loc : byte) (mask : pcrMask)
           (pcrVals : list byte) : M pcrInfoLong :=
  d <- createPCRComposite mask pcrVals ;;
  let locVal := byte_shl1 (byte.unsigned loc) in
  let pcri :=
    mkInfoLong tagPCRInfoLong locVal locVal
               (mkSelection 3 mask) (mkSelection 3 mask)
               (copy zeroDigest d) (copy zeroDigest d) in
  log_V 2 "Created pcrInfoLong with serialized form %s\n" [ArgInfo pcri] ;;;
  ret pcri.

(** The [for _, pcr := range pcrNums] loop of [newPCRInfoLong]. *)
Fixpoint newPCRInfoLong_loop (mask : pcrMask) (pcrNums : list Z)
  : result pcrMask :=
  match pcrNums with
  | [] => Ok mask
  | pcr :: rest =>
      match setPCR mask pcr with
      | (_, Some err) => Err err
      | (mask', None) => newPCRInfoLong_loop mask' rest
      end
  end.

(** [newPCRInfoLong(f *os.File, loc byte, pcrNums []int)]. *)
Definition newPCRInfoLong (f : File) (loc : byte) (pcrNums : list Z)
  : M pcrInfoLong :=
  mask <- lift (newPCRInfoLong_loop zeroMask pcrNums) ;;
  log_V 2 "mask is % x\n" [ArgMask mask] ;;;
  pcrVals <- lift (FetchPCRValues f pcrNums) ;;
  log_V 2 "pcrVals is % x\n" [ArgBytes pcrVals] ;;;
  createPCRInfoLong loc mask pcrVals.

End InfoBuilder.

(** The outcome of a computation started from a given [glog] state. *)
Definition outcome {A : Type} (m : M A) (g : glog) : result A := fst (m g).

Definition glog_after {A : Type} (m : M A) (g : glog) : glog := snd (m g).

(** The PCRs a mask selects, in ascending order. *)
Definition selected_pcrs (pm : pcrMask) : list Z :=
  filter (mask_bit pm) (map Z.of_nat (seq 0 24)).

(** [g'] is [g] after some diagnostic lines, none of them when the
    verbosity of [g] is below 2. *)
Definition log_extends (g g' : glog) : Prop :=
  verbosity g' = verbosity g /\
  (exists added, lines g' = lines g ++ added) /\
  (verbosity g < 2 -> g' = g).

(** * Properties *)

(** ** Bytes, bit by bit *)

Lemma testbit_unsigned_of_Z (z p : Z) :
  0 <= p < 8 ->
  Z.testbit (byte.unsigned (byte.of_Z z)) p = Z.testbit z p.
Proof.
  intros Hp. rewrite byte.unsigned_of_Z. unfold byte.wrap.
  apply Z.mod_pow2_bits_low. lia.
Qed.

Lemma testbit_unsigned_high (b : byte) (p : Z) :
  8 <= p -> Z.testbit (byte.unsigned b) p = false.
Proof.
  intros Hp. rewrite <- (byte.wrap_unsigned b). unfold byte.wrap.
  apply Z.mod_pow2_bits_high. lia.
Qed.

(** Two bytes with the same eight bits are the same byte. *)
Lemma byte_ext (a b : byte) :
  (forall p, 0 <= p < 8 ->
             Z.testbit (byte.unsigned a) p = Z.testbit (byte.unsigned b) p) ->
  a = b.
Proof.
  intros H. apply byte.unsigned_inj. apply Z.bits_inj'. intros p Hp.
  destruct (Z.lt_ge_cases p 8) as [Hlt | Hge].
  - apply H. lia.
  - now rewrite !testbit_unsigned_high.
Qed.

Lemma testbit_byte_or (a b : byte) (p : Z) :
  0 <= p < 8 ->
  Z.testbit (byte.unsigned (byte_or a b)) p =
  Z.testbit (byte.unsigned a) p || Z.testbit (byte.unsigned b) p.
Proof.
  intros Hp. unfold byte_or.
  now rewrite testbit_unsigned_of_Z, Z.lor_spec.
Qed.

Lemma testbit_byte_and (a b : byte) (p : Z) :
  0 <= p < 8 ->
  Z.testbit (byte.unsigned (byte_and a b)) p =
  Z.testbit (byte.unsigned a) p && Z.testbit (byte.unsigned b) p.
Proof.
  intros Hp. unfold byte_and.
  now rewrite testbit_unsigned_of_Z, Z.land_spec.
Qed.

Lemma testbit_byte_shl1 (n p : Z) :
  0 <= n -> 0 <= p < 8 ->
  Z.testbit (byte.unsigned (byte_shl1 n)) p = (p =? n).
Proof.
  intros Hn Hp. unfold byte_shl1.
  rewrite testbit_unsigned_of_Z by assumption.
  rewrite Z.shiftl_1_l, Z.pow2_bits_eqb by assumption.
  apply Z.eqb_sym.
Qed.

(** From position 8 on, the bit of [1 << n] is shifted out of the byte. *)
Lemma byte_shl1_overflow (n : Z) : 8 <= n -> byte_shl1 n = Byte.x00.
Proof.
  intros Hn. apply byte_ext. intros p Hp.
  rewrite testbit_byte_shl1 by lia.
  change (byte.unsigned Byte.x00) with 0. rewrite Z.bits_0. lia.
Qed.

Lemma unsigned_byte_shl1 (n : Z) :
  byte.unsigned (byte_shl1 n) = Z.shiftl 1 n mod 2 ^ 8.
Proof. unfold byte_shl1. now rewrite byte.unsigned_of_Z. Qed.

(** The test of [isPCRSet], [x & n == n] with [n] the one-bit byte, reads
    one bit of [x]. *)
Lemma and_one_bit_eqb (x : byte) (n : Z) :
  0 <= n < 8 ->
  Byte.eqb (byte_and x (byte_shl1 n)) (byte_shl1 n) =
  Z.testbit (byte.unsigned x) n.
Proof.
  intros Hn. destruct (Z.testbit (byte.unsigned x) n) eqn:Hbit.
  - apply Byte.byte_dec_lb. apply byte_ext. intros p Hp.
    rewrite testbit_byte_and, testbit_byte_shl1 by lia.
    destruct (Z.eqb_spec p n) as [-> | _].
    + now rewrite Hbit.
    + apply andb_false_r.
  - destruct (Byte.eqb _ _) eqn:Heq; [ | reflexivity ].
    apply Byte.byte_dec_bl in Heq.
    apply (f_equal (fun b => Z.testbit (byte.unsigned b) n)) in Heq.
    rewrite testbit_byte_and, testbit_byte_shl1, Hbit, Z.eqb_refl in Heq by lia.
    discriminate.
Qed.

(** ** The index guard *)

Lemma guard_rejects (i : Z) :
  ((i >=? 24) || (i <? 0))%bool = negb (valid_index i).
Proof. unfold valid_index. lia. Qed.

Lemma guard_false (i : Z) :
  0 <= i < 24 -> ((i >=? 24) || (i <? 0))%bool = false.
Proof. lia. Qed.

Lemma guard_true (i : Z) :
  ~ 0 <= i < 24 -> ((i >=? 24) || (i <? 0))%bool = true.
Proof. lia. Qed.

(** Behind the guard, Go's truncated [i / 8] and [i % 8] are the floor
    quotient and remainder, the array index stays inside the three bytes of
    the mask, and the shift count survives the conversion to [uint]. *)
Lemma guard_keeps_index_in_bounds (i : Z) :
  0 <= i < 24 ->
  Z.quot i 8 = i / 8 /\ uint (Z.rem i 8) = i mod 8 /\
  0 <= i / 8 < 3 /\ 0 <= i mod 8 < 8.
Proof.
  intros Hi. unfold uint.
  rewrite Z.quot_div_nonneg, Z.rem_mod_nonneg by lia.
  pose proof (Z.mod_pos_bound i 8 eq_refl).
  rewrite (Z.mod_small (i mod 8)) by lia.
  repeat split; try lia.
  - apply Z.div_pos; lia.
  - apply Z.div_lt_upper_bound; lia.
Qed.

(** ** Reading and writing mask bytes *)

Lemma nth_mask_get (pm : pcrMask) (k : Z) :
  0 <= k < 3 ->
  nth (Z.to_nat k) (mask_bytes pm) Byte.x00 = mask_get pm k.
Proof.
  intros Hk.
  assert (k = 0 \/ k = 1 \/ k = 2) as [-> | [-> | ->]] by lia; reflexivity.
Qed.

Lemma mask_get_set (pm : pcrMask) (k k' : Z) (v : byte) :
  0 <= k < 3 -> 0 <= k' < 3 ->
  mask_get (mask_set pm k' v) k = if k =? k' then v else mask_get pm k.
Proof.
  intros Hk Hk'.
  assert (k = 0 \/ k = 1 \/ k = 2) as [-> | [-> | ->]] by lia;
    assert (k' = 0 \/ k' = 1 \/ k' = 2) as [-> | [-> | ->]] by lia;
    reflexivity.
Qed.

Lemma setPCR_valid (pm : pcrMask) (i : Z) :
  0 <= i < 24 ->
  setPCR pm i =
  (mask_set pm (i / 8) (byte_or (mask_get pm (i / 8)) (byte_shl1 (i mod 8))),
   None).
Proof.
  intros Hi. unfold setPCR. rewrite guard_false by assumption.
  destruct (guard_keeps_index_in_bounds i Hi) as (-> & -> & _).
  reflexivity.
Qed.

Lemma setPCR_invalid (pm : pcrMask) (i : Z) :
  ~ 0 <= i < 24 ->
  setPCR pm i = (pm, Some (errors_New ("can't set PCR " ++ strconv_Itoa i))).
Proof. intros Hi. unfold setPCR. now rewrite guard_true. Qed.

(** What [setPCR] does to each bit of each byte. *)
Lemma setPCR_bit_at (pm : pcrMask) (i k p : Z) :
  0 <= i < 24 -> 0 <= k < 3 -> 0 <= p < 8 ->
  mask_bit_at (fst (setPCR pm i)) k p =
  ((k =? i / 8) && (p =? i mod 8)) || mask_bit_at pm k p.
Proof.
  intros Hi Hk Hp. rewrite setPCR_valid by assumption. cbn [fst].
  destruct (guard_keeps_index_in_bounds i Hi) as (_ & _ & Hq & Hr).
  unfold mask_bit_at. rewrite !nth_mask_get, mask_get_set by assumption.
  destruct (Z.eqb_spec k (i / 8)) as [-> | _]; [ | reflexivity ].
  rewrite testbit_byte_or, testbit_byte_shl1 by lia.
  cbn [andb]. apply orb_comm.
Qed.

Lemma index_eqb_split (i j : Z) :
  ((j / 8 =? i / 8) && (j mod 8 =? i mod 8))%bool = (j =? i).
Proof.
  pose proof (Z.div_mod i 8). pose proof (Z.div_mod j 8).
  destruct (Z.eqb_spec j i) as [-> | Hne].
  - now rewrite !Z.eqb_refl.
  - destruct (Z.eqb_spec (j / 8) (i / 8)), (Z.eqb_spec (j mod 8) (i mod 8));
      try reflexivity.
    exfalso. apply Hne. lia.
Qed.

Lemma index_split_bounds (j : Z) :
  0 <= j < 24 -> 0 <= j / 8 < 3 /\ 0 <= j mod 8 < 8.
Proof.
  intros Hj. pose proof (Z.mod_pos_bound j 8 eq_refl). split; [ | lia ].
  split; [ apply Z.div_pos | apply Z.div_lt_upper_bound ]; lia.
Qed.

Lemma setPCR_mask_bit (pm : pcrMask) (i j : Z) :
  0 <= i < 24 -> 0 <= j < 24 ->
  mask_bit (fst (setPCR pm i)) j = (j =? i) || mask_bit pm j.
Proof.
  intros Hi Hj. unfold mask_bit.
  destruct (index_split_bounds j Hj).
  now rewrite setPCR_bit_at, index_eqb_split.
Qed.

Lemma isPCRSet_valid (pm : pcrMask) (i : Z) :
  0 <= i < 24 -> isPCRSet pm i = Ok (mask_bit pm i).
Proof.
  intros Hi. unfold isPCRSet. rewrite guard_false by assumption.
  destruct (guard_keeps_index_in_bounds i Hi) as (-> & -> & Hq & Hr).
  cbv zeta. rewrite and_one_bit_eqb by assumption.
  unfold mask_bit, mask_bit_at. now rewrite nth_mask_get.
Qed.

Lemma isPCRSet_invalid (pm : pcrMask) (i : Z) :
  ~ 0 <= i < 24 ->
  isPCRSet pm i = Err (errors_New ("can't check PCR " ++ strconv_Itoa i)).
Proof. intros Hi. unfold isPCRSet. now rewrite guard_true. Qed.

(** A mask is its 24 bits. *)
Lemma mask_ext (a b : pcrMask) :
  (forall j, 0 <= j < 24 -> mask_bit a j = mask_bit b j) -> a = b.
Proof.
  intros H.
  assert (forall k p, 0 <= k < 3 -> 0 <= p < 8 ->
                      mask_bit_at a k p = mask_bit_at b k p) as Hat.
  { intros k p Hk Hp. specialize (H (8 * k + p)).
    unfold mask_bit in H.
    replace ((8 * k + p) / 8) with k in H
      by (apply Z.div_unique with p; lia).
    replace ((8 * k + p) mod 8) with p in H
      by (apply Z.mod_unique with k; lia).
    apply H. lia. }
  destruct a as [a0 a1 a2], b as [b0 b1 b2].
  f_equal; apply byte_ext; intros p Hp.
  - apply (Hat 0 p); lia.
  - apply (Hat 1 p); lia.
  - apply (Hat 2 p); lia.
Qed.

Lemma kind_of_set (i : Z) :
  kind_of (errors_New ("can't set PCR " ++ strconv_Itoa i)) = InvalidIndex.
Proof. destruct (strconv_Itoa i); reflexivity. Qed.

Lemma kind_of_check (i : Z) :
  kind_of (errors_New ("can't check PCR " ++ strconv_Itoa i)) = InvalidIndex.
Proof. destruct (strconv_Itoa i); reflexivity. Qed.

(** C3: for an index [i] in [0, 24), [setPCR] returns no error and turns on
    the bit at position [i mod 8], counted from the least significant one,
    of byte [i / 8], every other bit of the three bytes keeping its value,
    and [isPCRSet] reads that very bit; for an index outside [0, 24), both
    fail with an error of kind [InvalidIndex] and [setPCR] hands the mask
    back as it was. *)
Theorem setPCR_isPCRSet_bit_layout (pm : pcrMask) (i : Z) :
  (0 <= i < 24 ->
   snd (setPCR pm i) = None /\
   (forall k p, 0 <= k < 3 -> 0 <= p < 8 ->
      mask_bit_at (fst (setPCR pm i)) k p =
      ((k =? i / 8) && (p =? i mod 8)) || mask_bit_at pm k p) /\
   isPCRSet pm i = Ok (mask_bit_at pm (i / 8) (i mod 8)) /\
   isPCRSet (fst (setPCR pm i)) i = Ok true) /\
  (~ 0 <= i < 24 ->
   setPCR pm i =
     (pm, Some (errors_New ("can't set PCR " ++ strconv_Itoa i))) /\
   isPCRSet pm i = Err (errors_New ("can't check PCR " ++ strconv_Itoa i)) /\
   kind_of (errors_New ("can't set PCR " ++ strconv_Itoa i)) = InvalidIndex /\
   kind_of (errors_New ("can't check PCR " ++ strconv_Itoa i)) = InvalidIndex).
Proof.
  split.
  - intros Hi. repeat split.
    + now rewrite setPCR_valid.
    + intros k p Hk Hp. now apply setPCR_bit_at.
    + now apply isPCRSet_valid.
    + rewrite isPCRSet_valid, setPCR_mask_bit, Z.eqb_refl by assumption.
      reflexivity.
  - intros Hi. repeat split.
    + now apply setPCR_invalid.
    + now apply isPCRSet_invalid.
    + apply kind_of_set.
    + apply kind_of_check.
Qed.

Lemma setPCR_isPCRSet_bit_layout_witness :
  (snd (setPCR zeroMask 17) = None /\
   isPCRSet (fst (setPCR zeroMask 17)) 17 = Ok true) /\
  setPCR zeroMask 24 = (zeroMask, Some (errors_New "can't set PCR 24")) /\
  isPCRSet zeroMask (-1) = Err (errors_New "can't check PCR -1").
Proof.
  split; [ | split ].
  - destruct (proj1 (setPCR_isPCRSet_bit_layout zeroMask 17))
      as (Hnone & _ & _ & Hset); [ lia | ].
    split; [ exact Hnone | exact Hset ].
  - destruct (proj2 (setPCR_isPCRSet_bit_layout zeroMask 24))
      as (Hset & _); [ lia | exact Hset ].
  - destruct (proj2 (setPCR_isPCRSet_bit_layout zeroMask (-1)))
      as (_ & Hcheck & _); [ lia | exact Hcheck ].
Defined.

(** ** The selection loop *)

Lemma valid_index_spec (i : Z) : valid_index i = true <-> 0 <= i < 24.
Proof. unfold valid_index. lia. Qed.

Lemma first_invalid_None (l : list Z) :
  first_invalid l = None <-> (forall i, In i l -> 0 <= i < 24).
Proof.
  unfold first_invalid. induction l as [ | x l IH]; cbn [find In].
  - split; [ intros _ i [] | reflexivity ].
  - destruct (valid_index x) eqn:Hx; cbn [negb].
    + apply valid_index_spec in Hx. rewrite IH. split.
      * intros H i [<- | Hin]; [ assumption | now apply H ].
      * intros H i Hin. apply H. now right.
    + split; [ discriminate | ].
      intros H. specialize (H x (or_introl eq_refl)).
      apply valid_index_spec in H. congruence.
Qed.

Lemma first_invalid_Some (l : list Z) (bad : Z) :
  first_invalid l = Some bad ->
  exists pre post,
    l = pre ++ bad :: post /\
    (forall i, In i pre -> 0 <= i < 24) /\ ~ 0 <= bad < 24.
Proof.
  unfold first_invalid. induction l as [ | x l IH]; cbn [find].
  - discriminate.
  - destruct (valid_index x) eqn:Hx; cbn [negb].
    + intros H. destruct (IH H) as (pre & post & -> & Hpre & Hbad).
      exists (x :: pre), post.
      split; [ reflexivity | split; [ | assumption ] ].
      intros i [<- | Hin]; [ now apply valid_index_spec | now apply Hpre ].
    + intros [= <-]. exists [], l.
      split; [ reflexivity | split ].
      * intros i [].
      * rewrite <- valid_index_spec. congruence.
Qed.

Lemma first_invalid_exists (l : list Z) (i : Z) :
  In i l -> ~ 0 <= i < 24 -> exists bad, first_invalid l = Some bad.
Proof.
  intros Hin Hi. destruct (first_invalid l) as [bad | ] eqn:H.
  - now exists bad.
  - exfalso. apply Hi. now apply (proj1 (first_invalid_None l) H).
Qed.

(** The loop of [newPCRInfoLong] stops at the first index [setPCR]
    rejects, with the error of [setPCR]. *)
Lemma newPCRInfoLong_loop_invalid (l : list Z) (pm : pcrMask) (bad : Z) :
  first_invalid l = Some bad ->
  newPCRInfoLong_loop pm l =
  Err (errors_New ("can't set PCR " ++ strconv_Itoa bad)).
Proof.
  unfold first_invalid. revert pm.
  induction l as [ | x l IH]; intros pm; cbn [find newPCRInfoLong_loop].
  - discriminate.
  - destruct (valid_index x) eqn:Hx; cbn [negb].
    + intros H. apply valid_index_spec in Hx.
      rewrite setPCR_valid by assumption. now apply IH.
    + intros [= <-]. rewrite setPCR_invalid; [ reflexivity | ].
      rewrite <- valid_index_spec. congruence.
Qed.

(** Over valid indices it runs to the end and has set the bits listed. *)
Lemma newPCRInfoLong_loop_valid (l : list Z) (pm : pcrMask) :
  first_invalid l = None ->
  exists m,
    newPCRInfoLong_loop pm l = Ok m /\
    forall j, 0 <= j < 24 ->
              mask_bit m j = mask_bit pm j || existsb (Z.eqb j) l.
Proof.
  rewrite first_invalid_None. revert pm.
  induction l as [ | x l IH]; intros pm Hall; cbn [newPCRInfoLong_loop existsb].
  - exists pm. split; [ reflexivity | ]. intros j _. now rewrite orb_false_r.
  - assert (0 <= x < 24) as Hx by (apply Hall; now left).
    destruct (setPCR pm x) as [pm' err] eqn:Hset.
    pose proof (setPCR_mask_bit pm x) as Hbit.
    rewrite setPCR_valid in Hset by assumption. injection Hset as <- <-.
    destruct (IH (fst (setPCR pm x))) as (m & Hm & Hbits).
    { intros i Hi. apply Hall. now right. }
    rewrite setPCR_valid in Hm by assumption. cbn [fst] in Hm.
    exists m. split; [ exact Hm | ].
    intros j Hj. rewrite Hbits, Hbit by assumption.
    now rewrite orb_assoc, (orb_comm (j =? x)).
Qed.

(** The loop of [newPCRSelection] is the same loop under the [Size]
    field. *)
Lemma newPCRSelection_loop_mask (l : list Z) (s : pcrSelection) :
  newPCRSelection_loop s l =
  match newPCRInfoLong_loop (Mask s) l with
  | Ok m => Ok (mkSelection (Size s) m)
  | Err e => Err e
  end.
Proof.
  revert s. induction l as [ | x l IH]; intros [sz pm];
    cbn [newPCRSelection_loop newPCRInfoLong_loop Mask Size].
  - reflexivity.
  - destruct (setPCR pm x) as [pm' [err | ]]; [ reflexivity | ].
    now rewrite IH.
Qed.

Lemma newPCRSelection_invalid (l : list Z) (bad : Z) :
  first_invalid l = Some bad ->
  newPCRSelection l = Err (errors_New ("can't set PCR " ++ strconv_Itoa bad)).
Proof.
  intros H. unfold newPCRSelection. rewrite newPCRSelection_loop_mask.
  cbn [Mask Size]. now rewrite (newPCRInfoLong_loop_invalid _ _ bad).
Qed.

Lemma newPCRSelection_valid (l : list Z) :
  first_invalid l = None ->
  exists m,
    newPCRSelection l = Ok (mkSelection 3 m) /\
    forall j, 0 <= j < 24 -> mask_bit m j = existsb (Z.eqb j) l.
Proof.
  intros H. unfold newPCRSelection. rewrite newPCRSelection_loop_mask.
  cbn [Mask Size].
  destruct (newPCRInfoLong_loop_valid l zeroMask H) as (m & -> & Hbits).
  exists m. split; [ reflexivity | ].
  intros j Hj. rewrite Hbits by assumption.
  replace (mask_bit zeroMask j) with false; [ reflexivity | ].
  unfold mask_bit, mask_bit_at. destruct (index_split_bounds j Hj) as [Hk _].
  rewrite nth_mask_get by assumption.
  assert (j / 8 = 0 \/ j / 8 = 1 \/ j / 8 = 2) as [-> | [-> | ->]] by lia;
    cbn; now rewrite Z.bits_0.
Qed.

(** C4: a sequence holding an index outside [0, 24) makes [newPCRSelection]
    fail at the first such index, with the [InvalidIndex] error of [setPCR]
    for that index and nothing else: the result is an error, not a
    selection, so the bits set for the earlier indices are not handed out.
    A sequence of valid indices gives a selection of size 3. *)
Theorem newPCRSelection_fails_atomically (l : list Z) :
  (forall i, In i l -> ~ 0 <= i < 24 ->
     exists pre bad post,
       l = pre ++ bad :: post /\
       (forall x, In x pre -> 0 <= x < 24) /\ ~ 0 <= bad < 24 /\
       newPCRSelection l =
         Err (errors_New ("can't set PCR " ++ strconv_Itoa bad)) /\
       kind_of (errors_New ("can't set PCR " ++ strconv_Itoa bad)) =
         InvalidIndex) /\
  ((forall i, In i l -> 0 <= i < 24) ->
     exists s, newPCRSelection l = Ok s /\ Size s = 3).
Proof.
  split.
  - intros i Hin Hi.
    destruct (first_invalid_exists l i Hin Hi) as (bad & Hbad).
    destruct (first_invalid_Some l bad Hbad) as (pre & post & Hl & Hpre & Hout).
    exists pre, bad, post.
    split; [ exact Hl | split; [ exact Hpre | split; [ exact Hout | ] ] ].
    split; [ now apply newPCRSelection_invalid | apply kind_of_set ].
  - intros Hall. apply first_invalid_None in Hall.
    destruct (newPCRSelection_valid l Hall) as (m & Hm & _).
    exists (mkSelection 3 m). split; [ exact Hm | reflexivity ].
Qed.

Lemma newPCRSelection_fails_atomically_witness :
  (exists pre bad post,
     [0; 24; 5; -1] = pre ++ bad :: post /\
     (forall x, In x pre -> 0 <= x < 24) /\ ~ 0 <= bad < 24 /\
     newPCRSelection [0; 24; 5; -1] =
       Err (errors_New ("can't set PCR " ++ strconv_Itoa bad)) /\
     kind_of (errors_New ("can't set PCR " ++ strconv_Itoa bad)) =
       InvalidIndex) /\
  (exists s, newPCRSelection [0; 17; 23] = Ok s /\ Size s = 3).
Proof.
  split.
  - apply (proj1 (newPCRSelection_fails_atomically [0; 24; 5; -1]) (-1)).
    + cbn. tauto.
    + lia.
  - apply (proj2 (newPCRSelection_fails_atomically [0; 17; 23])).
    intros i [<- | [<- | [<- | []]]]; lia.
Defined.

(** ** Order and repetition *)

Lemma existsb_eqb_In (j : Z) (l : list Z) :
  existsb (Z.eqb j) l = true <-> In j l.
Proof.
  rewrite existsb_exists. split.
  - intros (x & Hin & Heq). apply Z.eqb_eq in Heq. now subst.
  - intros Hin. exists j. split; [ assumption | apply Z.eqb_refl ].
Qed.

Lemma existsb_same_members (j : Z) (l1 l2 : list Z) :
  (forall i, In i l1 <-> In i l2) ->
  existsb (Z.eqb j) l1 = existsb (Z.eqb j) l2.
Proof.
  intros H. apply eq_true_iff_eq. now rewrite !existsb_eqb_In.
Qed.

Lemma newPCRSelection_Ok_valid (l : list Z) (s : pcrSelection) :
  newPCRSelection l = Ok s -> first_invalid l = None.
Proof.
  intros H. destruct (first_invalid l) as [bad | ] eqn:Hbad; [ | reflexivity ].
  rewrite (newPCRSelection_invalid l bad Hbad) in H. discriminate.
Qed.

Lemma setPCR_valid_fst (pm : pcrMask) (i : Z) :
  0 <= i < 24 -> setPCR pm i = (fst (setPCR pm i), None).
Proof. intros Hi. now rewrite setPCR_valid. Qed.

(** Setting a bit that [setPCR] has just set changes nothing more. *)
Lemma setPCR_idempotent (pm : pcrMask) (i : Z) :
  0 <= i < 24 -> fst (setPCR (fst (setPCR pm i)) i) = fst (setPCR pm i).
Proof.
  intros Hi. apply mask_ext. intros j Hj.
  rewrite !setPCR_mask_bit by assumption.
  now destruct (j =? i).
Qed.

(** C8: the mask of a successful [newPCRSelection] is a function of the set
    of indices: two index lists with the same members give the same
    selection, whatever the order and the repetitions.  So [23, 0, 17] and
    [0, 17, 23] give the same result, and so does an index listed twice in
    a row and listed once. *)
Theorem newPCRSelection_depends_on_index_set :
  (forall l1 l2 s1 s2,
     newPCRSelection l1 = Ok s1 -> newPCRSelection l2 = Ok s2 ->
     (forall i, In i l1 <-> In i l2) -> s1 = s2) /\
  newPCRSelection [23; 0; 17] = newPCRSelection [0; 17; 23] /\
  (forall i l, newPCRSelection (i :: i :: l) = newPCRSelection (i :: l)).
Proof.
  split; [ | split ].
  - intros l1 l2 s1 s2 H1 H2 Hsame.
    destruct (newPCRSelection_valid l1 (newPCRSelection_Ok_valid l1 s1 H1))
      as (m1 & Hm1 & Hbits1).
    destruct (newPCRSelection_valid l2 (newPCRSelection_Ok_valid l2 s2 H2))
      as (m2 & Hm2 & Hbits2).
    rewrite Hm1 in H1. rewrite Hm2 in H2.
    injection H1 as <-. injection H2 as <-. f_equal.
    apply mask_ext. intros j Hj.
    rewrite Hbits1, Hbits2 by assumption.
    now apply existsb_same_members.
  - reflexivity.
  - intros i l. unfold newPCRSelection.
    cbn [newPCRSelection_loop Mask Size].
    destruct (valid_index i) eqn:Hi.
    + apply valid_index_spec in Hi.
      rewrite (setPCR_valid_fst zeroMask i Hi).
      rewrite (setPCR_valid_fst (fst (setPCR zeroMask i)) i Hi).
      now rewrite setPCR_idempotent.
    + rewrite setPCR_invalid; [ reflexivity | ].
      rewrite <- valid_index_spec. congruence.
Qed.

Lemma newPCRSelection_depends_on_index_set_witness :
  newPCRSelection [17; 5; 17] =
    Ok (mkSelection 3 (mkMask Byte.x20 Byte.x00 Byte.x02)) /\
  newPCRSelection [5; 17] =
    Ok (mkSelection 3 (mkMask Byte.x20 Byte.x00 Byte.x02)) /\
  mkSelection 3 (mkMask Byte.x20 Byte.x00 Byte.x02) =
    mkSelection 3 (mkMask Byte.x20 Byte.x00 Byte.x02).
Proof.
  split; [ reflexivity | split; [ reflexivity | ] ].
  apply (proj1 newPCRSelection_depends_on_index_set [17; 5; 17] [5; 17]).
  - reflexivity.
  - reflexivity.
  - intros i. cbn. tauto.
Defined.

(** ** Big-endian fields *)

Lemma length_be_bytes (n : nat) (z : Z) : List.length (be_bytes n z) = n.
Proof. induction n as [ | n IH]; cbn [be_bytes List.length]; congruence. Qed.

(** A field of [n] bytes holds its value modulo [2 ^ (8 * n)]. *)
Lemma be_value_be_bytes (n : nat) (z : Z) :
  be_value (be_bytes n z) = z mod 2 ^ (8 * Z.of_nat n).
Proof.
  induction n as [ | n IH]; cbn [be_bytes be_value].
  - now rewrite Z.mod_1_r.
  - rewrite length_be_bytes, IH, byte.unsigned_of_Z. unfold byte.wrap.
    rewrite Z.shiftr_div_pow2 by lia.
    replace (8 * Z.of_nat (S n)) with (8 * Z.of_nat n + 8) by lia.
    rewrite Z.pow_add_r by lia.
    rewrite Z.rem_mul_r by (apply Z.pow_nonzero || apply Z.pow_pos_nonneg; lia).
    lia.
Qed.

(** The test vectors of FIPS 180: the empty message, one block, two
    blocks. *)
Example sha1_Sum_empty :
  sha1_Sum [] =
  [Byte.xda; Byte.x39; Byte.xa3; Byte.xee; Byte.x5e; Byte.x6b; Byte.x4b;
   Byte.x0d; Byte.x32; Byte.x55; Byte.xbf; Byte.xef; Byte.x95; Byte.x60;
   Byte.x18; Byte.x90; Byte.xaf; Byte.xd8; Byte.x07; Byte.x09].
Proof. vm_compute. reflexivity. Qed.

Example sha1_Sum_abc :
  sha1_Sum (list_byte_of_string "abc") =
  [Byte.xa9; Byte.x99; Byte.x3e; Byte.x36; Byte.x47; Byte.x06; Byte.x81;
   Byte.x6a; Byte.xba; Byte.x3e; Byte.x25; Byte.x71; Byte.x78; Byte.x50;
   Byte.xc2; Byte.x6c; Byte.x9c; Byte.xd0; Byte.xd8; Byte.x9d].
Proof. vm_compute. reflexivity. Qed.

Example sha1_Sum_two_blocks :
  sha1_Sum (list_byte_of_string
              "abcdbcdecdefdefgefghfghighijhijkijkljklmklmnlmnomnopnopq") =
  [Byte.x84; Byte.x98; Byte.x3e; Byte.x44; Byte.x1c; Byte.x3b; Byte.xd2;
   Byte.x6e; Byte.xba; Byte.xae; Byte.x4a; Byte.xa1; Byte.xf9; Byte.x51;
   Byte.x29; Byte.xe5; Byte.xe5; Byte.x46; Byte.x70; Byte.xf1].
Proof. vm_compute. reflexivity. Qed.

Lemma sha1_Sum_length (data : list byte) :
  List.length (sha1_Sum data) = 20%nat.
Proof.
  unfold sha1_Sum.
  destruct (sha1_blocks _ _ _) as [[[[h0 h1] h2] h3] h4].
  reflexivity.
Qed.

(** ** Running [createPCRComposite] *)

Lemma pack_selection_bytes (mask : pcrMask) (pcrs : list byte) :
  pack [PackSelection (mkSelection 3 mask); PackBytes pcrs] =
  Ok (composite_buffer mask pcrs).
Proof.
  unfold pack, composite_buffer. cbn [map List.concat pack_elt Size Mask].
  now rewrite app_nil_r, <- app_assoc.
Qed.

Lemma length_rem_mod (pcrs : list byte) :
  Z.rem (Z.of_nat (List.length pcrs)) PCRSize =
  Z.of_nat (List.length pcrs) mod 20.
Proof. unfold PCRSize. apply Z.rem_mod_nonneg; lia. Qed.

Lemma createPCRComposite_malformed (mask : pcrMask) (pcrs : list byte)
      (g : glog) :
  Z.of_nat (List.length pcrs) mod 20 <> 0 ->
  createPCRComposite mask pcrs g =
  (Err (errors_New "pcrs must be a multiple of 20"), g).
Proof.
  intros H. unfold createPCRComposite. rewrite length_rem_mod.
  destruct (Z.eqb_spec (Z.of_nat (List.length pcrs) mod 20) 0);
    [ contradiction | reflexivity ].
Qed.

Lemma createPCRComposite_wellformed (mask : pcrMask) (pcrs : list byte)
      (g : glog) :
  Z.of_nat (List.length pcrs) mod 20 = 0 ->
  createPCRComposite mask pcrs g =
  (Ok (sha1_Sum (composite_buffer mask pcrs)), composite_log mask pcrs g).
Proof.
  intros H. unfold createPCRComposite. rewrite length_rem_mod, H.
  cbn [Z.eqb negb]. unfold bind, lift, log_V, ret, composite_log.
  rewrite pack_selection_bytes. unfold glog_V, glog_Infof.
  destruct (2 <=? verbosity g) eqn:Hv; cbn [verbosity lines];
    rewrite ?Hv; reflexivity.
Qed.

Lemma kind_of_malformed :
  kind_of (errors_New "pcrs must be a multiple of 20") = MalformedPcrValues.
Proof. reflexivity. Qed.

(** C2: on a mask and PCR values whose length is a multiple of 20,
    [createPCRComposite] succeeds and returns the SHA-1 of the buffer made
    of the size 3 on 2 bytes, the 3 mask bytes, the length of the values on
    4 bytes and the values, big-endian and with nothing in between; the
    digest has 20 bytes.  (The length field holds the length modulo
    [2 ^ 32], which is the length for every slice below 4 GiB.) *)
Theorem createPCRComposite_digest_of_buffer
        (mask : pcrMask) (pcrValues : list byte) (g : glog) :
  Z.of_nat (List.length pcrValues) mod 20 = 0 ->
  let len := Z.of_nat (List.length pcrValues) in
  let buffer :=
    [Byte.x00; Byte.x03] ++ [m0 mask; m1 mask; m2 mask]
      ++ be_bytes 4 len ++ pcrValues in
  outcome (createPCRComposite mask pcrValues) g = Ok (sha1_Sum buffer) /\
  List.length (sha1_Sum buffer) = 20%nat /\
  be_value [Byte.x00; Byte.x03] = 3 /\
  List.length (be_bytes 4 len) = 4%nat /\
  be_value (be_bytes 4 len) = len mod 2 ^ 32 /\
  List.length buffer = (2 + 3 + 4 + List.length pcrValues)%nat.
Proof.
  intros H len buffer. unfold outcome.
  rewrite createPCRComposite_wellformed by assumption. cbn [fst].
  split; [ reflexivity | ].
  split; [ apply sha1_Sum_length | ].
  split; [ reflexivity | ].
  split; [ apply length_be_bytes | ].
  split; [ apply (be_value_be_bytes 4) | ].
  subst buffer. cbn [app List.length].
  now rewrite length_app, length_be_bytes.
Qed.

Lemma createPCRComposite_digest_of_buffer_witness :
  outcome (createPCRComposite (mkMask Byte.x01 Byte.x00 Byte.x82)
                              (repeat Byte.xff 20))
          (mkGlog 0 []) =
  Ok (sha1_Sum ([Byte.x00; Byte.x03; Byte.x01; Byte.x00; Byte.x82;
                 Byte.x00; Byte.x00; Byte.x00; Byte.x14]
                  ++ repeat Byte.xff 20)).
Proof.
  apply (createPCRComposite_digest_of_buffer
           (mkMask Byte.x01 Byte.x00 Byte.x82) (repeat Byte.xff 20)
           (mkGlog 0 [])).
  reflexivity.
Defined.

(** C5: [createPCRComposite] fails with the [MalformedPcrValues] error
    exactly when the length of the values is not a multiple of 20, and then
    its result is that error and no digest; on any other length it
    succeeds. *)
Theorem createPCRComposite_malformed_iff
        (mask : pcrMask) (pcrValues : list byte) (g : glog) :
  ((exists e, outcome (createPCRComposite mask pcrValues) g = Err e /\
              kind_of e = MalformedPcrValues) <->
   Z.of_nat (List.length pcrValues) mod 20 <> 0) /\
  (Z.of_nat (List.length pcrValues) mod 20 <> 0 ->
   outcome (createPCRComposite mask pcrValues) g =
   Err (errors_New "pcrs must be a multiple of 20")) /\
  (Z.of_nat (List.length pcrValues) mod 20 = 0 ->
   is_ok (outcome (createPCRComposite mask pcrValues) g) = true).
Proof.
  unfold outcome.
  destruct (Z.eq_dec (Z.of_nat (List.length pcrValues) mod 20) 0) as [H | H].
  - rewrite createPCRComposite_wellformed by assumption. cbn [fst is_ok].
    split; [ split | split ].
    + intros (e & He & _). discriminate.
    + contradiction.
    + contradiction.
    + reflexivity.
  - rewrite createPCRComposite_malformed by assumption. cbn [fst is_ok].
    split; [ split | split ].
    + intros _. assumption.
    + intros _. eexists. split; [ reflexivity | apply kind_of_malformed ].
    + reflexivity.
    + contradiction.
Qed.

Lemma createPCRComposite_malformed_iff_witness :
  outcome (createPCRComposite zeroMask (repeat Byte.x00 19)) (mkGlog 2 []) =
    Err (errors_New "pcrs must be a multiple of 20") /\
  outcome (createPCRComposite zeroMask (repeat Byte.x00 21)) (mkGlog 2 []) =
    Err (errors_New "pcrs must be a multiple of 20") /\
  is_ok (outcome (createPCRComposite zeroMask (repeat Byte.x00 40))
                 (mkGlog 2 [])) = true.
Proof.
  split; [ | split ].
  - apply (proj1 (proj2 (createPCRComposite_malformed_iff
                           zeroMask (repeat Byte.x00 19) (mkGlog 2 [])))).
    cbn. discriminate.
  - apply (proj1 (proj2 (createPCRComposite_malformed_iff
                           zeroMask (repeat Byte.x00 21) (mkGlog 2 [])))).
    cbn. discriminate.
  - apply (proj2 (proj2 (createPCRComposite_malformed_iff
                           zeroMask (repeat Byte.x00 40) (mkGlog 2 [])))).
    reflexivity.
Defined.

(** C9: [createPCRComposite] is deterministic and touches nothing but the
    diagnostic log: equal masks and equal values give the same result
    whatever the state of the logger, the verbosity is left as it was, the
    lines already logged stay in place, and below verbosity 2 the logger is
    left untouched. *)
Theorem createPCRComposite_deterministic
        (mask1 mask2 : pcrMask) (pcrs1 pcrs2 : list byte) (g1 g2 : glog) :
  mask1 = mask2 -> pcrs1 = pcrs2 ->
  outcome (createPCRComposite mask1 pcrs1) g1 =
    outcome (createPCRComposite mask2 pcrs2) g2 /\
  verbosity (glog_after (createPCRComposite mask1 pcrs1) g1) = verbosity g1 /\
  (exists added,
     lines (glog_after (createPCRComposite mask1 pcrs1) g1) =
     lines g1 ++ added) /\
  (verbosity g1 < 2 -> glog_after (createPCRComposite mask1 pcrs1) g1 = g1).
Proof.
  intros <- <-. unfold outcome, glog_after.
  destruct (Z.eq_dec (Z.of_nat (List.length pcrs1) mod 20) 0) as [H | H].
  - rewrite !createPCRComposite_wellformed by assumption. cbn [fst snd].
    unfold composite_log, glog_V, glog_Infof.
    split; [ reflexivity | ].
    destruct (Z.leb_spec 2 (verbosity g1)) as [Hv | Hv]; cbn [verbosity lines].
    + split; [ reflexivity | split; [ | lia ] ].
      rewrite <- app_assoc. eexists. reflexivity.
    + split; [ reflexivity | split; [ | reflexivity ] ].
      exists []. now rewrite app_nil_r.
  - rewrite !createPCRComposite_malformed by assumption. cbn [fst snd].
    split; [ reflexivity | split; [ reflexivity | split; [ | reflexivity ] ] ].
    exists []. now rewrite app_nil_r.
Qed.

Lemma createPCRComposite_deterministic_witness :
  outcome (createPCRComposite (mkMask Byte.x01 Byte.x00 Byte.x82)
                              (repeat Byte.x00 20)) (mkGlog 0 []) =
  outcome (createPCRComposite (mkMask Byte.x01 Byte.x00 Byte.x82)
                              (repeat Byte.x00 20))
          (mkGlog 3 [mkLine "mask is % x\n" [ArgMask zeroMask]]) /\
  glog_after (createPCRComposite (mkMask Byte.x01 Byte.x00 Byte.x82)
                                 (repeat Byte.x00 20)) (mkGlog 0 []) =
  mkGlog 0 [].
Proof.
  destruct (createPCRComposite_deterministic
              (mkMask Byte.x01 Byte.x00 Byte.x82)
              (mkMask Byte.x01 Byte.x00 Byte.x82)
              (repeat Byte.x00 20) (repeat Byte.x00 20)
              (mkGlog 0 [])
              (mkGlog 3 [mkLine "mask is % x\n" [ArgMask zeroMask]])
              eq_refl eq_refl)
    as (Hsame & _ & _ & Hquiet).
  split; [ exact Hsame | apply Hquiet; cbn; lia ].
Defined.

(** ** Running [createPCRInfoLong] *)

Lemma copy_zeroDigest (d : list byte) :
  List.length d = 20%nat -> copy zeroDigest d = d.
Proof.
  intros H. unfold copy. rewrite H.
  change (List.length zeroDigest) with 20%nat.
  rewrite firstn_all2 by lia. cbn. apply app_nil_r.
Qed.

Lemma createPCRComposite_Ok_length
      (mask : pcrMask) (pcrs : list byte) (g : glog) (d : list byte) :
  outcome (createPCRComposite mask pcrs) g = Ok d -> List.length d = 20%nat.
Proof.
  unfold outcome.
  destruct (Z.eq_dec (Z.of_nat (List.length pcrs) mod 20) 0) as [H | H].
  - rewrite createPCRComposite_wellformed by assumption.
    intros [= <-]. apply sha1_Sum_length.
  - rewrite createPCRComposite_malformed by assumption. discriminate.
Qed.

Lemma createPCRInfoLong_Ok
      (tag : Z) (loc : byte) (mask : pcrMask) (pcrVals : list byte)
      (g : glog) (d : list byte) :
  outcome (createPCRComposite mask pcrVals) g = Ok d ->
  outcome (createPCRInfoLong tag loc mask pcrVals) g =
  Ok (mkInfoLong tag (byte_shl1 (byte.unsigned loc))
                 (byte_shl1 (byte.unsigned loc))
                 (mkSelection 3 mask) (mkSelection 3 mask) d d).
Proof.
  intros H. pose proof (createPCRComposite_Ok_length _ _ _ _ H) as Hlen.
  unfold outcome in *. unfold createPCRInfoLong, bind.
  destruct (createPCRComposite mask pcrVals g) as [[d' | e] g'];
    cbn [fst] in H; [ | discriminate ].
  injection H as ->. unfold log_V, ret. cbn [fst].
  now rewrite copy_zeroDigest.
Qed.

Lemma createPCRInfoLong_Err
      (tag : Z) (loc : byte) (mask : pcrMask) (pcrVals : list byte)
      (g : glog) (e : error) :
  outcome (createPCRComposite mask pcrVals) g = Err e ->
  outcome (createPCRInfoLong tag loc mask pcrVals) g = Err e.
Proof.
  unfold outcome, createPCRInfoLong, bind.
  destruct (createPCRComposite mask pcrVals g) as [[d' | e'] g'];
    cbn [fst]; [ discriminate | now intros [= ->] ].
Qed.

(** C6: when the composite digest of [mask] and [pcrVals] is [d],
    [createPCRInfoLong] returns a record whose two locations are the byte
    [1 << loc], whose two selections are [{3, mask}] and whose two digests
    are [d]; when the digest step fails with [e], it returns [e] and no
    record. *)
Theorem createPCRInfoLong_fields
        (tag : Z) (loc : byte) (mask : pcrMask) (pcrVals : list byte)
        (g : glog) :
  (forall d,
     outcome (createPCRComposite mask pcrVals) g = Ok d ->
     exists pcri,
       outcome (createPCRInfoLong tag loc mask pcrVals) g = Ok pcri /\
       LocAtCreation pcri = byte_shl1 (byte.unsigned loc) /\
       LocAtRelease pcri = byte_shl1 (byte.unsigned loc) /\
       byte.unsigned (LocAtCreation pcri) =
         Z.shiftl 1 (byte.unsigned loc) mod 2 ^ 8 /\
       PCRsAtCreation pcri = mkSelection 3 mask /\
       PCRsAtRelease pcri = mkSelection 3 mask /\
       DigestAtCreation pcri = d /\
       DigestAtRelease pcri = d) /\
  (forall e,
     outcome (createPCRComposite mask pcrVals) g = Err e ->
     outcome (createPCRInfoLong tag loc mask pcrVals) g = Err e).
Proof.
  split.
  - intros d H. eexists.
    split; [ exact (createPCRInfoLong_Ok tag loc mask pcrVals g d H) | ].
    cbn [LocAtCreation LocAtRelease PCRsAtCreation PCRsAtRelease
         DigestAtCreation DigestAtRelease].
    rewrite unsigned_byte_shl1. repeat split.
  - intros e. apply createPCRInfoLong_Err.
Qed.

Lemma createPCRInfoLong_fields_witness :
  (exists pcri,
     outcome (createPCRInfoLong 6 Byte.x02 zeroMask []) (mkGlog 0 []) =
       Ok pcri /\
     LocAtCreation pcri = Byte.x04 /\ LocAtRelease pcri = Byte.x04 /\
     DigestAtCreation pcri = DigestAtRelease pcri) /\
  outcome (createPCRInfoLong 6 Byte.x02 zeroMask [Byte.x00]) (mkGlog 0 []) =
    Err (errors_New "pcrs must be a multiple of 20").
Proof.
  split.
  - destruct (proj1 (createPCRInfoLong_fields 6 Byte.x02 zeroMask []
                                              (mkGlog 0 []))
                    _ eq_refl)
      as (pcri & Hrun & Hc & Hr & _ & _ & _ & Hdc & Hdr).
    exists pcri.
    split; [ exact Hrun | split; [ exact Hc | split; [ exact Hr | ] ] ].
    now rewrite Hdc, Hdr.
  - apply (proj2 (createPCRInfoLong_fields 6 Byte.x02 zeroMask [Byte.x00]
                                           (mkGlog 0 []))).
    reflexivity.
Defined.

(** C10: a locality of 8 or more is no error for [createPCRInfoLong]: on
    values whose length is a multiple of 20 it succeeds, and both location
    bytes are 0, the single bit of [1 << loc] having been shifted out of the
    byte. *)
Theorem createPCRInfoLong_locality_overflow
        (tag : Z) (loc : byte) (mask : pcrMask) (pcrVals : list byte)
        (g : glog) :
  8 <= byte.unsigned loc ->
  Z.of_nat (List.length pcrVals) mod 20 = 0 ->
  exists pcri,
    outcome (createPCRInfoLong tag loc mask pcrVals) g = Ok pcri /\
    LocAtCreation pcri = Byte.x00 /\ LocAtRelease pcri = Byte.x00.
Proof.
  intros Hloc Hlen. eexists. split.
  - apply createPCRInfoLong_Ok. unfold outcome.
    now rewrite createPCRComposite_wellformed.
  - cbn [LocAtCreation LocAtRelease].
    now rewrite byte_shl1_overflow.
Qed.

Lemma createPCRInfoLong_locality_overflow_witness :
  exists pcri,
    outcome (createPCRInfoLong 6 Byte.x08 zeroMask (repeat Byte.x00 20))
            (mkGlog 0 []) = Ok pcri /\
    LocAtCreation pcri = Byte.x00 /\ LocAtRelease pcri = Byte.x00.
Proof.
  apply (createPCRInfoLong_locality_overflow
           6 Byte.x08 zeroMask (repeat Byte.x00 20) (mkGlog 0 [])).
  - cbn. lia.
  - reflexivity.
Defined.

(** ** Running [newPCRInfoLong] *)

(** The logger has no say in the results. *)
Lemma createPCRComposite_outcome_any
      (mask : pcrMask) (pcrs : list byte) (g g' : glog) :
  outcome (createPCRComposite mask pcrs) g =
  outcome (createPCRComposite mask pcrs) g'.
Proof.
  unfold outcome.
  destruct (Z.eq_dec (Z.of_nat (List.length pcrs) mod 20) 0) as [H | H].
  - now rewrite !createPCRComposite_wellformed.
  - now rewrite !createPCRComposite_malformed.
Qed.

Lemma createPCRInfoLong_outcome_any
      (tag : Z) (loc : byte) (mask : pcrMask) (pcrVals : list byte)
      (g g' : glog) :
  outcome (createPCRInfoLong tag loc mask pcrVals) g =
  outcome (createPCRInfoLong tag loc mask pcrVals) g'.
Proof.
  destruct (outcome (createPCRComposite mask pcrVals) g) as [d | e] eqn:H.
  - rewrite (createPCRInfoLong_Ok _ _ _ _ _ _ H).
    rewrite (createPCRComposite_outcome_any _ _ g g') in H.
    now rewrite (createPCRInfoLong_Ok _ _ _ _ _ _ H).
  - rewrite (createPCRInfoLong_Err _ _ _ _ _ _ H).
    rewrite (createPCRComposite_outcome_any _ _ g g') in H.
    now rewrite (createPCRInfoLong_Err _ _ _ _ _ _ H).
Qed.

(** [newPCRInfoLong] step by step: the mask, then the values, then the
    record. *)
Lemma newPCRInfoLong_outcome
      (tag : Z) (File : Type) (Fetch : File -> list Z -> result (list byte))
      (f : File) (loc : byte) (pcrNums : list Z) (g : glog) :
  outcome (newPCRInfoLong tag File Fetch f loc pcrNums) g =
  match newPCRInfoLong_loop zeroMask pcrNums with
  | Err e => Err e
  | Ok mask =>
      match Fetch f pcrNums with
      | Err e => Err e
      | Ok pcrVals => outcome (createPCRInfoLong tag loc mask pcrVals) g
      end
  end.
Proof.
  unfold outcome at 1. unfold newPCRInfoLong, bind, lift, log_V.
  destruct (newPCRInfoLong_loop zeroMask pcrNums) as [mask | e];
    [ | reflexivity ].
  destruct (Fetch f pcrNums) as [pcrVals | e]; [ | reflexivity ].
  apply createPCRInfoLong_outcome_any.
Qed.

(** C7: [newPCRInfoLong] stops at the first step that fails and returns the
    error of that step, not a record: the error of [setPCR] for the first
    index out of range, else the error of the value source, else the error
    of the digest.  A record it returns comes from three steps that all
    succeeded, and holds the digest of the fetched values. *)
Theorem newPCRInfoLong_aborts_on_failure
        (tag : Z) (File : Type)
        (Fetch : File -> list Z -> result (list byte))
        (f : File) (loc : byte) (pcrNums : list Z) (g : glog) :
  (forall bad,
     first_invalid pcrNums = Some bad ->
     outcome (newPCRInfoLong tag File Fetch f loc pcrNums) g =
     Err (errors_New ("can't set PCR " ++ strconv_Itoa bad))) /\
  (forall e,
     first_invalid pcrNums = None -> Fetch f pcrNums = Err e ->
     outcome (newPCRInfoLong tag File Fetch f loc pcrNums) g = Err e) /\
  (forall pcrVals e g',
     first_invalid pcrNums = None -> Fetch f pcrNums = Ok pcrVals ->
     (forall mask,
        newPCRInfoLong_loop zeroMask pcrNums = Ok mask ->
        outcome (createPCRComposite mask pcrVals) g' = Err e) ->
     outcome (newPCRInfoLong tag File Fetch f loc pcrNums) g = Err e) /\
  (forall pcri,
     outcome (newPCRInfoLong tag File Fetch f loc pcrNums) g = Ok pcri ->
     exists mask pcrVals d,
       newPCRInfoLong_loop zeroMask pcrNums = Ok mask /\
       Fetch f pcrNums = Ok pcrVals /\
       outcome (createPCRComposite mask pcrVals) g = Ok d /\
       DigestAtCreation pcri = d /\ DigestAtRelease pcri = d).
Proof.
  rewrite newPCRInfoLong_outcome. split; [ | split; [ | split ] ].
  - intros bad Hbad.
    now rewrite (newPCRInfoLong_loop_invalid _ _ bad Hbad).
  - intros e Hvalid Hfetch.
    destruct (newPCRInfoLong_loop_valid pcrNums zeroMask Hvalid)
      as (mask & -> & _).
    now rewrite Hfetch.
  - intros pcrVals e g' Hvalid Hfetch Hdigest.
    destruct (newPCRInfoLong_loop_valid pcrNums zeroMask Hvalid)
      as (mask & Hmask & _).
    specialize (Hdigest mask Hmask). rewrite Hmask, Hfetch.
    apply createPCRInfoLong_Err.
    now rewrite (createPCRComposite_outcome_any _ _ g g').
  - intros pcri.
    destruct (newPCRInfoLong_loop zeroMask pcrNums) as [mask | e];
      [ | discriminate ].
    destruct (Fetch f pcrNums) as [pcrVals | e]; [ | discriminate ].
    destruct (outcome (createPCRComposite mask pcrVals) g) as [d | e] eqn:Hd.
    + rewrite (createPCRInfoLong_Ok _ _ _ _ _ _ Hd). intros [= <-].
      exists mask, pcrVals, d. repeat split. exact Hd.
    + rewrite (createPCRInfoLong_Err _ _ _ _ _ _ Hd). discriminate.
Qed.

Lemma newPCRInfoLong_aborts_on_failure_witness :
  outcome (newPCRInfoLong 6 unit (fun _ _ => Ok []) tt Byte.x00 [0; 24])
          (mkGlog 2 []) =
    Err (errors_New "can't set PCR 24") /\
  outcome (newPCRInfoLong 6 unit
             (fun _ _ => Err (errors_New "tpm: device unreachable"))
             tt Byte.x00 [0; 17; 23])
          (mkGlog 2 []) =
    Err (errors_New "tpm: device unreachable") /\
  outcome (newPCRInfoLong 6 unit (fun _ _ => Ok (repeat Byte.x00 19))
             tt Byte.x00 [0; 17; 23])
          (mkGlog 2 []) =
    Err (errors_New "pcrs must be a multiple of 20").
Proof.
  split; [ | split ].
  - apply (proj1 (newPCRInfoLong_aborts_on_failure
                    6 unit (fun _ _ => Ok []) tt Byte.x00 [0; 24]
                    (mkGlog 2 [])) 24).
    reflexivity.
  - apply (proj1 (proj2 (newPCRInfoLong_aborts_on_failure
                           6 unit
                           (fun _ _ =>
                              Err (errors_New "tpm: device unreachable"))
                           tt Byte.x00 [0; 17; 23] (mkGlog 2 []))));
      reflexivity.
  - apply (proj1 (proj2 (proj2 (newPCRInfoLong_aborts_on_failure
                                  6 unit (fun _ _ => Ok (repeat Byte.x00 19))
                                  tt Byte.x00 [0; 17; 23] (mkGlog 2 []))))
             (repeat Byte.x00 19) _ (mkGlog 2 []));
      [ reflexivity | reflexivity | ].
    intros mask _. reflexivity.
Defined.

(** ** The known vector *)

Lemma selects_exactly_bits (pm : pcrMask) (l : list Z) :
  selects_exactly pm l = true ->
  forall j, 0 <= j < 24 -> mask_bit pm j = existsb (Z.eqb j) l.
Proof.
  unfold selects_exactly. rewrite forallb_forall. intros H j Hj.
  apply eqb_prop. apply H.
  replace j with (Z.of_nat (Z.to_nat j)) by lia.
  apply in_map. apply in_seq. lia.
Qed.

(** Only one mask selects a given set of PCRs. *)
Lemma selects_exactly_unique (a b : pcrMask) (l : list Z) :
  selects_exactly a l = true -> selects_exactly b l = true -> a = b.
Proof.
  intros Ha Hb. apply mask_ext. intros j Hj.
  now rewrite (selects_exactly_bits a l Ha), (selects_exactly_bits b l Hb).
Qed.

(** C1, as stated, fails: the mask that selects PCRs 0, 17 and 23 is
    [01 00 82], PCR 17 being bit 1 of byte 2; the bytes [01 02 80] select
    PCRs 0, 9 and 23, and the buffer hashed for PCRs 0, 17 and 23 does not
    start with [00 03 01 02 80 00 00 00 3C]. *)
Lemma known_vector_mask_bytes_counterexample :
  selects_exactly (mkMask Byte.x01 Byte.x00 Byte.x82) [0; 17; 23] = true /\
  newPCRSelection [0; 17; 23] =
    Ok (mkSelection 3 (mkMask Byte.x01 Byte.x00 Byte.x82)) /\
  mask_bytes (mkMask Byte.x01 Byte.x00 Byte.x82) <>
    [Byte.x01; Byte.x02; Byte.x80] /\
  selects_exactly (mkMask Byte.x01 Byte.x02 Byte.x80) [0; 17; 23] = false /\
  selects_exactly (mkMask Byte.x01 Byte.x02 Byte.x80) [0; 9; 23] = true /\
  isPCRSet (mkMask Byte.x01 Byte.x02 Byte.x80) 17 = Ok false /\
  firstn 9 (composite_buffer (mkMask Byte.x01 Byte.x00 Byte.x82)
                             (repeat Byte.x00 60)) <>
    [Byte.x00; Byte.x03; Byte.x01; Byte.x02; Byte.x80;
     Byte.x00; Byte.x00; Byte.x00; Byte.x3c].
Proof.
  repeat split; try reflexivity; discriminate.
Qed.

(** C1, amended: the mask that selects exactly PCRs 0, 17 and 23 has the
    bytes [01 00 82]; over that mask and 60 zero bytes of values,
    [createPCRComposite] hashes a buffer of 69 bytes, [00 03 01 00 82 00 00
    00 3C] followed by 60 zero bytes, and returns its SHA-1, which is
    [d151b54b 3ec98def fe8ec88c 9f2fc2d6 32455f85]. *)
Theorem known_vector_0_17_23 :
  let mask := mkMask Byte.x01 Byte.x00 Byte.x82 in
  let buffer :=
    [Byte.x00; Byte.x03; Byte.x01; Byte.x00; Byte.x82;
     Byte.x00; Byte.x00; Byte.x00; Byte.x3c] ++ repeat Byte.x00 60 in
  selects_exactly mask [0; 17; 23] = true /\
  (forall pm, selects_exactly pm [0; 17; 23] = true -> pm = mask) /\
  newPCRSelection [0; 17; 23] = Ok (mkSelection 3 mask) /\
  mask_bytes mask = [Byte.x01; Byte.x00; Byte.x82] /\
  List.length buffer = 69%nat /\
  (forall g,
     outcome (createPCRComposite mask (repeat Byte.x00 60)) g =
     Ok (sha1_Sum buffer)) /\
  sha1_Sum buffer =
    [Byte.xd1; Byte.x51; Byte.xb5; Byte.x4b; Byte.x3e; Byte.xc9; Byte.x8d;
     Byte.xef; Byte.xfe; Byte.x8e; Byte.xc8; Byte.x8c; Byte.x9f; Byte.x2f;
     Byte.xc2; Byte.xd6; Byte.x32; Byte.x45; Byte.x5f; Byte.x85].
Proof.
  intros mask buffer.
  split; [ reflexivity | ].
  split; [ intros pm Hpm; now apply (selects_exactly_unique pm mask [0; 17; 23]) | ].
  split; [ reflexivity | ].
  split; [ reflexivity | ].
  split; [ reflexivity | ].
  split; [ | vm_compute; reflexivity ].
  intros g. unfold outcome.
  rewrite createPCRComposite_wellformed by reflexivity. reflexivity.
Qed.

Lemma known_vector_0_17_23_witness :
  selects_exactly (mkMask Byte.x01 Byte.x00 Byte.x82) [0; 17; 23] = true /\
  mkMask Byte.x01 Byte.x00 Byte.x82 = mkMask Byte.x01 Byte.x00 Byte.x82.
Proof.
  split; [ reflexivity | ].
  apply (proj1 (proj2 known_vector_0_17_23)
               (mkMask Byte.x01 Byte.x00 Byte.x82)).
  reflexivity.
Defined.

(** * Further properties of the mask and the selection *)

Lemma setPCR_fst_invalid (pm : pcrMask) (i : Z) :
  ~ 0 <= i < 24 -> fst (setPCR pm i) = pm.
Proof. intros Hi. now rewrite setPCR_invalid. Qed.

(** X1: reading after writing.  After a successful [setPCR pm i],
    [isPCRSet] answers true at [i] and answers at every other index, valid
    or not, what it answered before; a rejected [setPCR] changes no
    answer. *)
Theorem isPCRSet_after_setPCR (pm : pcrMask) (i j : Z) :
  (0 <= i < 24 ->
   isPCRSet (fst (setPCR pm i)) j =
   if j =? i then Ok true else isPCRSet pm j) /\
  (~ 0 <= i < 24 -> isPCRSet (fst (setPCR pm i)) j = isPCRSet pm j).
Proof.
  split; intros Hi.
  - destruct (valid_index j) eqn:Hj.
    + apply valid_index_spec in Hj.
      rewrite (isPCRSet_valid _ j Hj), setPCR_mask_bit by assumption.
      destruct (j =? i); [ reflexivity | ].
      now rewrite isPCRSet_valid.
    + assert (~ 0 <= j < 24) as Hj'
          by (rewrite <- valid_index_spec; congruence).
      destruct (Z.eqb_spec j i) as [-> | _]; [ contradiction | ].
      now rewrite !isPCRSet_invalid.
  - now rewrite setPCR_fst_invalid.
Qed.

Lemma isPCRSet_after_setPCR_witness :
  isPCRSet (fst (setPCR zeroMask 9)) 9 = Ok true /\
  isPCRSet (fst (setPCR zeroMask 9)) 10 = isPCRSet zeroMask 10 /\
  isPCRSet (fst (setPCR zeroMask 24)) 3 = isPCRSet zeroMask 3.
Proof.
  split; [ | split ].
  - apply (proj1 (isPCRSet_after_setPCR zeroMask 9 9)). lia.
  - apply (proj1 (isPCRSet_after_setPCR zeroMask 9 10)). lia.
  - apply (proj2 (isPCRSet_after_setPCR zeroMask 24 3)). lia.
Defined.

(** X3: two calls of [setPCR] commute, whatever the two indices: the mask
    left by setting [i] then [j] is the mask left by setting [j] then
    [i], also when one of them is rejected. *)
Theorem setPCR_commutes (pm : pcrMask) (i j : Z) :
  fst (setPCR (fst (setPCR pm i)) j) = fst (setPCR (fst (setPCR pm j)) i).
Proof.
  destruct (valid_index i) eqn:Hi, (valid_index j) eqn:Hj.
  - apply valid_index_spec in Hi, Hj. apply mask_ext. intros k Hk.
    rewrite !setPCR_mask_bit by assumption.
    now destruct (k =? i), (k =? j).
  - assert (~ 0 <= j < 24) by (rewrite <- valid_index_spec; congruence).
    now rewrite !(setPCR_fst_invalid _ j).
  - assert (~ 0 <= i < 24) by (rewrite <- valid_index_spec; congruence).
    now rewrite !(setPCR_fst_invalid _ i).
  - assert (~ 0 <= i < 24) by (rewrite <- valid_index_spec; congruence).
    assert (~ 0 <= j < 24) by (rewrite <- valid_index_spec; congruence).
    now rewrite !(setPCR_fst_invalid _ i), !(setPCR_fst_invalid _ j).
Qed.

(** X4: for a valid index, [setPCR] leaves the mask as it was exactly when
    [isPCRSet] already answered true for that index. *)
Theorem setPCR_unchanged_iff_set (pm : pcrMask) (i : Z) :
  0 <= i < 24 ->
  (fst (setPCR pm i) = pm <-> isPCRSet pm i = Ok true).
Proof.
  intros Hi. rewrite isPCRSet_valid by assumption. split.
  - intros Heq. f_equal. rewrite <- Heq.
    rewrite setPCR_mask_bit, Z.eqb_refl by assumption. reflexivity.
  - intros [= Hbit]. apply mask_ext. intros j Hj.
    rewrite setPCR_mask_bit by assumption.
    destruct (Z.eqb_spec j i) as [-> | _]; [ now rewrite Hbit | reflexivity ].
Qed.

Lemma setPCR_unchanged_iff_set_witness :
  fst (setPCR (mkMask Byte.x01 Byte.x00 Byte.x82) 17) =
  mkMask Byte.x01 Byte.x00 Byte.x82.
Proof.
  destruct (setPCR_unchanged_iff_set (mkMask Byte.x01 Byte.x00 Byte.x82) 17)
    as [_ Hset]; [ lia | ].
  apply Hset. reflexivity.
Defined.

(** X2: a selection answers membership.  In the mask of the selection
    [newPCRSelection] builds from [l], [isPCRSet] answers, at every valid
    index, whether the index occurs in [l]. *)
Theorem newPCRSelection_isPCRSet (l : list Z) (s : pcrSelection) (j : Z) :
  newPCRSelection l = Ok s -> 0 <= j < 24 ->
  isPCRSet (Mask s) j = Ok (existsb (Z.eqb j) l) /\
  (isPCRSet (Mask s) j = Ok true <-> In j l).
Proof.
  intros Hs Hj.
  destruct (newPCRSelection_valid l (newPCRSelection_Ok_valid l s Hs))
    as (m & Hm & Hbits).
  rewrite Hm in Hs. injection Hs as <-. cbn [Mask].
  rewrite isPCRSet_valid, Hbits by assumption.
  split; [ reflexivity | ].
  rewrite <- existsb_eqb_In. split; [ now intros [= ->] | now intros -> ].
Qed.

Lemma newPCRSelection_isPCRSet_witness :
  isPCRSet (mkMask Byte.x01 Byte.x00 Byte.x82) 17 = Ok true /\
  isPCRSet (mkMask Byte.x01 Byte.x00 Byte.x82) 9 = Ok false.
Proof.
  split.
  - destruct (newPCRSelection_isPCRSet
                [0; 17; 23]
                (mkSelection 3 (mkMask Byte.x01 Byte.x00 Byte.x82)) 17)
      as [Hread _]; [ reflexivity | lia | exact Hread ].
  - destruct (newPCRSelection_isPCRSet
                [0; 17; 23]
                (mkSelection 3 (mkMask Byte.x01 Byte.x00 Byte.x82)) 9)
      as [Hread _]; [ reflexivity | lia | exact Hread ].
Defined.

Lemma first_invalid_app (l1 l2 : list Z) :
  first_invalid (l1 ++ l2) =
  match first_invalid l1 with
  | Some bad => Some bad
  | None => first_invalid l2
  end.
Proof.
  unfold first_invalid. induction l1 as [ | x l1 IH]; cbn [app find].
  - reflexivity.
  - now destruct (negb (valid_index x)).
Qed.

Lemma newPCRSelection_Err_inv (l : list Z) (e : error) :
  newPCRSelection l = Err e ->
  exists bad,
    first_invalid l = Some bad /\
    e = errors_New ("can't set PCR " ++ strconv_Itoa bad).
Proof.
  intros H. destruct (first_invalid l) as [bad | ] eqn:Hbad.
  - exists bad. split; [ reflexivity | ].
    rewrite (newPCRSelection_invalid l bad Hbad) in H. congruence.
  - destruct (newPCRSelection_valid l Hbad) as (m & Hm & _). congruence.
Qed.

(** X5: selecting the indices of [l1 ++ l2].  An error on [l1] is the
    error on [l1 ++ l2]; when [l1] passes, an error on [l2] is the error on
    [l1 ++ l2]; when both pass, [l1 ++ l2] passes and its mask has the bits
    of the two masks and no other. *)
Theorem newPCRSelection_app (l1 l2 : list Z) :
  (forall e,
     newPCRSelection l1 = Err e -> newPCRSelection (l1 ++ l2) = Err e) /\
  (forall s1 e,
     newPCRSelection l1 = Ok s1 -> newPCRSelection l2 = Err e ->
     newPCRSelection (l1 ++ l2) = Err e) /\
  (forall s1 s2,
     newPCRSelection l1 = Ok s1 -> newPCRSelection l2 = Ok s2 ->
     exists s,
       newPCRSelection (l1 ++ l2) = Ok s /\
       forall j, 0 <= j < 24 ->
                 mask_bit (Mask s) j =
                 mask_bit (Mask s1) j || mask_bit (Mask s2) j).
Proof.
  split; [ | split ].
  - intros e H. destruct (newPCRSelection_Err_inv l1 e H) as (bad & Hbad & ->).
    apply newPCRSelection_invalid. now rewrite first_invalid_app, Hbad.
  - intros s1 e H1 H2.
    destruct (newPCRSelection_Err_inv l2 e H2) as (bad & Hbad & ->).
    apply newPCRSelection_invalid.
    now rewrite first_invalid_app, (newPCRSelection_Ok_valid l1 s1 H1).
  - intros s1 s2 H1 H2.
    pose proof (newPCRSelection_Ok_valid l1 s1 H1) as Hv1.
    pose proof (newPCRSelection_Ok_valid l2 s2 H2) as Hv2.
    destruct (newPCRSelection_valid l1 Hv1) as (m1 & Hm1 & Hb1).
    destruct (newPCRSelection_valid l2 Hv2) as (m2 & Hm2 & Hb2).
    destruct (newPCRSelection_valid (l1 ++ l2)) as (m & Hm & Hb).
    { now rewrite first_invalid_app, Hv1. }
    rewrite Hm1 in H1. rewrite Hm2 in H2.
    injection H1 as <-. injection H2 as <-.
    exists (mkSelection 3 m). split; [ exact Hm | ].
    intros j Hj. cbn [Mask].
    now rewrite Hb, Hb1, Hb2, existsb_app.
Qed.

Lemma newPCRSelection_app_witness :
  newPCRSelection ([0; 30] ++ [5]) = Err (errors_New "can't set PCR 30") /\
  newPCRSelection ([0] ++ [5; -2]) = Err (errors_New "can't set PCR -2") /\
  exists s,
    newPCRSelection ([0; 17] ++ [23]) = Ok s /\
    forall j, 0 <= j < 24 ->
              mask_bit (Mask s) j =
              mask_bit (mkMask Byte.x01 Byte.x00 Byte.x02) j
              || mask_bit (mkMask Byte.x00 Byte.x00 Byte.x80) j.
Proof.
  split; [ | split ].
  - apply (proj1 (newPCRSelection_app [0; 30] [5])). reflexivity.
  - apply (proj1 (proj2 (newPCRSelection_app [0] [5; -2]))
             (mkSelection 3 (mkMask Byte.x01 Byte.x00 Byte.x00)));
      reflexivity.
  - apply (proj2 (proj2 (newPCRSelection_app [0; 17] [23]))
             (mkSelection 3 (mkMask Byte.x01 Byte.x00 Byte.x02))
             (mkSelection 3 (mkMask Byte.x00 Byte.x00 Byte.x80)));
      reflexivity.
Defined.

Lemma index_range_NoDup : NoDup (map Z.of_nat (seq 0 24)).
Proof.
  apply Injective_map_NoDup; [ | apply seq_NoDup ].
  intros a b. apply Nat2Z.inj.
Qed.

Lemma index_range_In (j : Z) :
  In j (map Z.of_nat (seq 0 24)) <-> 0 <= j < 24.
Proof.
  rewrite in_map_iff. split.
  - intros (n & <- & Hn). apply in_seq in Hn. lia.
  - intros Hj. exists (Z.to_nat j). split; [ lia | apply in_seq; lia ].
Qed.

(** X6: the PCRs a selection selects.  The selected PCRs of the mask
    [newPCRSelection] builds from [l] are the members of [l], each once;
    when [l] lists no index twice there are as many of them as [l] has
    entries. *)
Theorem newPCRSelection_selected_pcrs (l : list Z) (s : pcrSelection) :
  newPCRSelection l = Ok s ->
  (forall j, In j (selected_pcrs (Mask s)) <-> In j l) /\
  NoDup (selected_pcrs (Mask s)) /\
  (NoDup l -> List.length (selected_pcrs (Mask s)) = List.length l).
Proof.
  intros Hs. pose proof (newPCRSelection_Ok_valid l s Hs) as Hvalid.
  destruct (newPCRSelection_valid l Hvalid) as (m & Hm & Hbits).
  rewrite Hm in Hs. injection Hs as <-. cbn [Mask].
  assert (forall j, In j (selected_pcrs m) <-> In j l) as Hmem.
  { intros j. unfold selected_pcrs. rewrite filter_In, index_range_In. split.
    - intros [Hj Hbit]. rewrite Hbits in Hbit by assumption.
      now apply existsb_eqb_In.
    - intros Hin.
      assert (0 <= j < 24) as Hj
          by now apply (proj1 (first_invalid_None l) Hvalid).
      split; [ assumption | ].
      rewrite Hbits by assumption. now apply existsb_eqb_In. }
  assert (NoDup (selected_pcrs m)) as Hnodup
      by (apply NoDup_filter, index_range_NoDup).
  split; [ exact Hmem | split; [ exact Hnodup | ] ].
  intros Hl. apply Permutation_length.
  now apply NoDup_Permutation.
Qed.

Lemma newPCRSelection_selected_pcrs_witness :
  List.length (selected_pcrs (mkMask Byte.x01 Byte.x00 Byte.x82)) = 3%nat.
Proof.
  destruct (newPCRSelection_selected_pcrs
              [23; 0; 17] (mkSelection 3 (mkMask Byte.x01 Byte.x00 Byte.x82)))
    as (_ & _ & Hcount); [ reflexivity | ].
  apply Hcount.
  repeat constructor; cbn; intuition discriminate.
Defined.

(** [strconv.Itoa] gives different indices different texts. *)
Lemma strconv_Itoa_inj (i j : Z) :
  strconv_Itoa i = strconv_Itoa j -> i = j.
Proof.
  unfold strconv_Itoa. intros H.
  assert (forall z, NilZero.int_of_string (NilZero.string_of_int (Z.to_int z))
                    = Some (Z.to_int z)) as Hparse.
  { intros z. apply NilZero.isi; destruct z as [ | p | p]; cbn;
      try discriminate; intros [= Hnil];
      now apply (DecimalPos.Unsigned.to_uint_nonnil p). }
  apply DecimalZ.to_int_inj.
  pose proof (Hparse i) as Hi. rewrite H, Hparse in Hi. congruence.
Qed.

(** X7: the error names the index.  Two calls that fail with the same
    error were given the same index, for [setPCR] and for [isPCRSet]; and
    no error of [setPCR] is an error of [isPCRSet]. *)
Theorem index_error_names_index
        (pm pm' : pcrMask) (i j : Z) (e : error) :
  (snd (setPCR pm i) = Some e -> snd (setPCR pm' j) = Some e -> i = j) /\
  (isPCRSet pm i = Err e -> isPCRSet pm' j = Err e -> i = j) /\
  (snd (setPCR pm i) = Some e -> isPCRSet pm' j <> Err e).
Proof.
  assert (forall m k err,
            snd (setPCR m k) = Some err ->
            err = errors_New ("can't set PCR " ++ strconv_Itoa k)) as Hset.
  { intros m k err. destruct (valid_index k) eqn:Hk.
    - apply valid_index_spec in Hk. rewrite setPCR_valid by assumption.
      discriminate.
    - rewrite setPCR_invalid
        by (rewrite <- valid_index_spec; congruence).
      now intros [= <-]. }
  assert (forall m k err,
            isPCRSet m k = Err err ->
            err = errors_New ("can't check PCR " ++ strconv_Itoa k)) as Hcheck.
  { intros m k err. destruct (valid_index k) eqn:Hk.
    - apply valid_index_spec in Hk. rewrite isPCRSet_valid by assumption.
      discriminate.
    - rewrite isPCRSet_invalid
        by (rewrite <- valid_index_spec; congruence).
      now intros [= <-]. }
  split; [ | split ].
  - intros Hi Hj. apply Hset in Hi, Hj. subst e.
    injection Hj as Hj. now apply strconv_Itoa_inj.
  - intros Hi Hj. apply Hcheck in Hi, Hj. subst e.
    injection Hj as Hj. now apply strconv_Itoa_inj.
  - intros Hi Hj. apply Hset in Hi. apply Hcheck in Hj. subst e.
    discriminate.
Qed.

Lemma index_error_names_index_witness :
  24 = 24 /\
  isPCRSet (mkMask Byte.x01 Byte.x00 Byte.x82) 30 <>
    Err (errors_New "can't set PCR 24").
Proof.
  split.
  - apply (proj1 (index_error_names_index
                    zeroMask (mkMask Byte.x01 Byte.x00 Byte.x82) 24 24
                    (errors_New "can't set PCR 24")));
      reflexivity.
  - apply (proj2 (proj2 (index_error_names_index
                           zeroMask (mkMask Byte.x01 Byte.x00 Byte.x82)
                           24 30 (errors_New "can't set PCR 24")))).
    reflexivity.
Defined.

(** * Further properties of the info record *)

Lemma createPCRInfoLong_Ok_inv
      (tag : Z) (loc : byte) (mask : pcrMask) (pcrVals : list byte)
      (g : glog) (pcri : pcrInfoLong) :
  outcome (createPCRInfoLong tag loc mask pcrVals) g = Ok pcri ->
  exists d,
    outcome (createPCRComposite mask pcrVals) g = Ok d /\
    List.length d = 20%nat /\
    pcri = mkInfoLong tag (byte_shl1 (byte.unsigned loc))
                      (byte_shl1 (byte.unsigned loc))
                      (mkSelection 3 mask) (mkSelection 3 mask) d d.
Proof.
  destruct (outcome (createPCRComposite mask pcrVals) g) as [d | e] eqn:Hd.
  - rewrite (createPCRInfoLong_Ok _ _ _ _ _ _ Hd). intros [= <-].
    exists d. split; [ reflexivity | split; [ | reflexivity ] ].
    now apply (createPCRComposite_Ok_length mask pcrVals g).
  - rewrite (createPCRInfoLong_Err _ _ _ _ _ _ Hd). discriminate.
Qed.

Lemma unsigned_byte_shl1_small (n : Z) :
  0 <= n < 8 -> byte.unsigned (byte_shl1 n) = 2 ^ n.
Proof.
  intros Hn. rewrite unsigned_byte_shl1, Z.shiftl_1_l.
  apply Z.mod_small. split; [ apply Z.pow_nonneg; lia | ].
  apply Z.pow_lt_mono_r; lia.
Qed.

(** X8: the location byte of a locality below 8.  In a record
    [createPCRInfoLong] returns for a locality [loc] below 8, both location
    bytes are [2 ^ loc], the byte with the one bit [loc] set; so the
    location byte is 0 exactly for the localities from 8 on. *)
Theorem createPCRInfoLong_location_one_hot
        (tag : Z) (loc : byte) (mask : pcrMask) (pcrVals : list byte)
        (g : glog) (pcri : pcrInfoLong) :
  outcome (createPCRInfoLong tag loc mask pcrVals) g = Ok pcri ->
  LocAtCreation pcri = LocAtRelease pcri /\
  (byte.unsigned loc < 8 ->
   byte.unsigned (LocAtRelease pcri) = 2 ^ byte.unsigned loc /\
   forall p, 0 <= p < 8 ->
             Z.testbit (byte.unsigned (LocAtRelease pcri)) p =
             (p =? byte.unsigned loc)) /\
  (LocAtRelease pcri = Byte.x00 <-> 8 <= byte.unsigned loc).
Proof.
  intros H.
  destruct (createPCRInfoLong_Ok_inv _ _ _ _ _ _ H) as (d & _ & _ & ->).
  cbn [LocAtCreation LocAtRelease].
  pose proof (byte.unsigned_range loc) as Hloc.
  split; [ reflexivity | split ].
  - intros Hlt. split.
    + apply unsigned_byte_shl1_small. lia.
    + intros p Hp. apply testbit_byte_shl1; lia.
  - split.
    + intros Hzero. destruct (Z.lt_ge_cases (byte.unsigned loc) 8) as [Hlt | Hge];
        [ | assumption ].
      apply (f_equal byte.unsigned) in Hzero.
      rewrite unsigned_byte_shl1_small in Hzero by lia.
      change (byte.unsigned Byte.x00) with 0 in Hzero.
      assert (0 < 2 ^ byte.unsigned loc) by (apply Z.pow_pos_nonneg; lia).
      lia.
    + apply byte_shl1_overflow.
Qed.

Lemma createPCRInfoLong_location_one_hot_witness :
  exists pcri,
    outcome (createPCRInfoLong 6 Byte.x03 zeroMask []) (mkGlog 0 []) =
      Ok pcri /\
    byte.unsigned (LocAtRelease pcri) = 8.
Proof.
  destruct (outcome (createPCRInfoLong 6 Byte.x03 zeroMask []) (mkGlog 0 []))
    as [pcri | e] eqn:Hrun; [ | vm_compute in Hrun; discriminate ].
  exists pcri. split; [ reflexivity | ].
  destruct (createPCRInfoLong_location_one_hot
              6 Byte.x03 zeroMask [] (mkGlog 0 []) pcri Hrun)
    as (_ & Hsmall & _).
  destruct Hsmall as [Hvalue _]; [ cbn; lia | exact Hvalue ].
Defined.

Lemma newPCRInfoLong_Ok_inv
      (tag : Z) (File : Type) (Fetch : File -> list Z -> result (list byte))
      (f : File) (loc : byte) (pcrNums : list Z) (g : glog)
      (pcri : pcrInfoLong) :
  outcome (newPCRInfoLong tag File Fetch f loc pcrNums) g = Ok pcri ->
  exists mask pcrVals,
    newPCRInfoLong_loop zeroMask pcrNums = Ok mask /\
    Fetch f pcrNums = Ok pcrVals /\
    outcome (createPCRInfoLong tag loc mask pcrVals) g = Ok pcri.
Proof.
  rewrite newPCRInfoLong_outcome.
  destruct (newPCRInfoLong_loop zeroMask pcrNums) as [mask | e];
    [ | discriminate ].
  destruct (Fetch f pcrNums) as [pcrVals | e]; [ | discriminate ].
  intros H. now exists mask, pcrVals.
Qed.

Lemma newPCRSelection_of_loop (l : list Z) :
  newPCRSelection l =
  match newPCRInfoLong_loop zeroMask l with
  | Ok m => Ok (mkSelection 3 m)
  | Err e => Err e
  end.
Proof. unfold newPCRSelection. now rewrite newPCRSelection_loop_mask. Qed.

(** X9: [newPCRInfoLong] and [newPCRSelection] agree.  The two selections
    of a record [newPCRInfoLong] returns are the selection
    [newPCRSelection] builds from the same indices, and an error of
    [newPCRSelection] on these indices is the error of [newPCRInfoLong],
    whatever the value source holds. *)
Theorem newPCRInfoLong_uses_newPCRSelection
        (tag : Z) (File : Type)
        (Fetch : File -> list Z -> result (list byte))
        (f : File) (loc : byte) (pcrNums : list Z) (g : glog) :
  (forall pcri,
     outcome (newPCRInfoLong tag File Fetch f loc pcrNums) g = Ok pcri ->
     newPCRSelection pcrNums = Ok (PCRsAtCreation pcri) /\
     newPCRSelection pcrNums = Ok (PCRsAtRelease pcri)) /\
  (forall e,
     newPCRSelection pcrNums = Err e ->
     outcome (newPCRInfoLong tag File Fetch f loc pcrNums) g = Err e).
Proof.
  split.
  - intros pcri H.
    destruct (newPCRInfoLong_Ok_inv _ _ _ _ _ _ _ _ H)
      as (mask & pcrVals & Hmask & _ & Hrec).
    destruct (createPCRInfoLong_Ok_inv _ _ _ _ _ _ Hrec) as (d & _ & _ & ->).
    cbn [PCRsAtCreation PCRsAtRelease].
    now rewrite newPCRSelection_of_loop, Hmask.
  - intros e. rewrite newPCRSelection_of_loop, newPCRInfoLong_outcome.
    destruct (newPCRInfoLong_loop zeroMask pcrNums); [ discriminate | ].
    now intros [= ->].
Qed.

Lemma newPCRInfoLong_uses_newPCRSelection_witness :
  outcome (newPCRInfoLong 6 unit (fun _ _ => Ok []) tt Byte.x00 [3; 99])
          (mkGlog 0 []) =
  Err (errors_New "can't set PCR 99").
Proof.
  apply (proj2 (newPCRInfoLong_uses_newPCRSelection
                  6 unit (fun _ _ => Ok []) tt Byte.x00 [3; 99]
                  (mkGlog 0 []))).
  reflexivity.
Defined.

(** X10: what a record of [newPCRInfoLong] holds.  A record it returns
    carries the tag constant, the location byte of the locality in both
    location fields, the size 3 and the bit of each index asked for, and of
    no other, in both selections, and the same 20 bytes in both digests. *)
Theorem newPCRInfoLong_record
        (tag : Z) (File : Type)
        (Fetch : File -> list Z -> result (list byte))
        (f : File) (loc : byte) (pcrNums : list Z) (g : glog)
        (pcri : pcrInfoLong) :
  outcome (newPCRInfoLong tag File Fetch f loc pcrNums) g = Ok pcri ->
  Tag pcri = tag /\
  LocAtCreation pcri = byte_shl1 (byte.unsigned loc) /\
  LocAtRelease pcri = LocAtCreation pcri /\
  Size (PCRsAtCreation pcri) = 3 /\
  (forall j, 0 <= j < 24 ->
             isPCRSet (Mask (PCRsAtCreation pcri)) j =
             Ok (existsb (Z.eqb j) pcrNums)) /\
  PCRsAtRelease pcri = PCRsAtCreation pcri /\
  List.length (DigestAtCreation pcri) = 20%nat /\
  DigestAtRelease pcri = DigestAtCreation pcri.
Proof.
  intros H.
  destruct (newPCRInfoLong_Ok_inv _ _ _ _ _ _ _ _ H)
    as (mask & pcrVals & Hmask & _ & Hrec).
  destruct (createPCRInfoLong_Ok_inv _ _ _ _ _ _ Hrec) as (d & _ & Hlen & ->).
  cbn [Tag LocAtCreation LocAtRelease PCRsAtCreation PCRsAtRelease
       DigestAtCreation DigestAtRelease Size Mask].
  repeat (split; [ reflexivity | ]).
  split; [ | repeat split; assumption ].
  intros j Hj.
  destruct (first_invalid pcrNums) as [bad | ] eqn:Hbad.
  - rewrite (newPCRInfoLong_loop_invalid _ _ bad Hbad) in Hmask. discriminate.
  - destruct (newPCRInfoLong_loop_valid pcrNums zeroMask Hbad)
      as (m & Hm & Hbits).
    rewrite Hm in Hmask. injection Hmask as ->.
    rewrite isPCRSet_valid, Hbits by assumption. f_equal.
    destruct (newPCRSelection_valid [] eq_refl) as (z & Hz & Hzero).
    injection Hz as <-. now rewrite Hzero.
Qed.

Lemma newPCRInfoLong_record_witness :
  exists pcri,
    outcome (newPCRInfoLong 6 unit (fun _ _ => Ok (repeat Byte.xaa 20))
                            tt Byte.x00 [3])
            (mkGlog 0 []) = Ok pcri /\
    Tag pcri = 6 /\
    isPCRSet (Mask (PCRsAtCreation pcri)) 3 = Ok true /\
    List.length (DigestAtCreation pcri) = 20%nat.
Proof.
  destruct (outcome (newPCRInfoLong 6 unit
                       (fun _ _ => Ok (repeat Byte.xaa 20)) tt Byte.x00 [3])
                    (mkGlog 0 []))
    as [pcri | e] eqn:Hrun; [ | vm_compute in Hrun; discriminate ].
  exists pcri. split; [ reflexivity | ].
  destruct (newPCRInfoLong_record
              6 unit (fun _ _ => Ok (repeat Byte.xaa 20)) tt Byte.x00 [3]
              (mkGlog 0 []) pcri Hrun)
    as (Htag & _ & _ & _ & Hbits & _ & Hlen & _).
  split; [ exact Htag | split; [ | exact Hlen ] ].
  apply (Hbits 3). lia.
Defined.

(** * Diagnostic logging *)

Lemma log_extends_refl (g : glog) : log_extends g g.
Proof.
  split; [ reflexivity | split; [ | reflexivity ] ].
  exists []. now rewrite app_nil_r.
Qed.

Lemma log_extends_trans (g g' g'' : glog) :
  log_extends g g' -> log_extends g' g'' -> log_extends g g''.
Proof.
  intros (Hv & (a & Ha) & Hq) (Hv' & (a' & Ha') & Hq').
  split; [ congruence | split ].
  - exists (a ++ a'). now rewrite Ha', Ha, app_assoc.
  - intros Hlow. rewrite <- (Hq Hlow). apply Hq'. lia.
Qed.

Lemma log_V_extends (fmt : string) (a : list log_arg) (g : glog) :
  log_extends g (snd (log_V 2 fmt a g)).
Proof.
  unfold log_V, glog_V, glog_Infof. cbn [snd].
  destruct (Z.leb_spec 2 (verbosity g)) as [Hv | Hv].
  - split; [ reflexivity | split; [ | lia ] ]. now eexists.
  - apply log_extends_refl.
Qed.

Lemma createPCRComposite_extends
      (mask : pcrMask) (pcrs : list byte) (g : glog) :
  log_extends g (snd (createPCRComposite mask pcrs g)).
Proof.
  destruct (Z.eq_dec (Z.of_nat (List.length pcrs) mod 20) 0) as [H | H].
  - rewrite createPCRComposite_wellformed by assumption. cbn [snd].
    unfold composite_log.
    destruct (glog_V g 2) eqn:Hv; [ | apply log_extends_refl ].
    unfold glog_V in Hv. apply Z.leb_le in Hv.
    unfold glog_Infof. cbn [verbosity lines].
    split; [ reflexivity | split; [ | lia ] ].
    rewrite <- app_assoc. now eexists.
  - rewrite createPCRComposite_malformed by assumption. apply log_extends_refl.
Qed.

Lemma createPCRInfoLong_extends
      (tag : Z) (loc : byte) (mask : pcrMask) (pcrVals : list byte)
      (g : glog) :
  log_extends g (snd (createPCRInfoLong tag loc mask pcrVals g)).
Proof.
  unfold createPCRInfoLong, bind.
  pose proof (createPCRComposite_extends mask pcrVals g) as Hc.
  destruct (createPCRComposite mask pcrVals g) as [[d | e] g'];
    cbn [snd] in *; [ | exact Hc ].
  unfold ret.
  match goal with
  | |- context [log_V 2 ?fmt ?a g'] =>
      pose proof (log_V_extends fmt a g') as Hl;
      destruct (log_V 2 fmt a g') as [[[] | e] g'']
  end; cbn [snd] in *; now apply (log_extends_trans g g' g'').
Qed.



Lemma newPCRInfoLong_extends
      (tag : Z) (File : Type) (Fetch : File -> list Z -> result (list byte))
      (f : File) (loc : byte) (pcrNums : list Z) (g : glog) :
  log_extends g (snd (newPCRInfoLong tag File Fetch f loc pcrNums g)).
Proof.
  unfold newPCRInfoLong, bind, lift.
  destruct (newPCRInfoLong_loop zeroMask pcrNums) as [mask | e];
    [ | apply log_extends_refl ].
  pose proof (log_V_extends "mask is % x\n" [ArgMask mask] g) as H1.
  destruct (log_V 2 "mask is % x\n" [ArgMask mask] g) as [[[] | e] g1];
    cbn [snd] in *; [ | exact H1 ].
  destruct (Fetch f pcrNums) as [pcrVals | e]; [ | exact H1 ].
  pose proof (log_V_extends "pcrVals is % x\n" [ArgBytes pcrVals] g1) as H2.
  destruct (log_V 2 "pcrVals is % x\n" [ArgBytes pcrVals] g1)
    as [[[] | e] g2]; cbn [snd] in *;
    [ | now apply (log_extends_trans g g1 g2) ].
  apply (log_extends_trans g g2); [ now apply (log_extends_trans g g1 g2) | ].
  apply createPCRInfoLong_extends.
Qed.

(** X12: [newPCRInfoLong] and the log.  A call stopped by an index out of
    range writes no line; a call stopped by the value source has written,
    at verbosity 2 or more, the one line that shows the mask; no call
    changes the verbosity or the lines already written, and below
    verbosity 2 no call writes a line. *)
Theorem newPCRInfoLong_logging
        (tag : Z) (File : Type)
        (Fetch : File -> list Z -> result (list byte))
        (f : File) (loc : byte) (pcrNums : list Z) (g : glog) :
  (forall bad,
     first_invalid pcrNums = Some bad ->
     glog_after (newPCRInfoLong tag File Fetch f loc pcrNums) g = g) /\
  (forall e,
     first_invalid pcrNums = None -> Fetch f pcrNums = Err e ->
     2 <= verbosity g ->
     exists mask,
       newPCRInfoLong_loop zeroMask pcrNums = Ok mask /\
       glog_after (newPCRInfoLong tag File Fetch f loc pcrNums) g =
       glog_Infof g "mask is % x\n" [ArgMask mask]) /\
  verbosity (glog_after (newPCRInfoLong tag File Fetch f loc pcrNums) g) =
    verbosity g /\
  (exists added,
     lines (glog_after (newPCRInfoLong tag File Fetch f loc pcrNums) g) =
     lines g ++ added) /\
  (verbosity g < 2 ->
   glog_after (newPCRInfoLong tag File Fetch f loc pcrNums) g = g).
Proof.
  split; [ | split;
             [ | exact (newPCRInfoLong_extends tag File Fetch f loc pcrNums g) ] ].
  - intros bad Hbad. unfold glog_after, newPCRInfoLong, bind, lift.
    now rewrite (newPCRInfoLong_loop_invalid _ _ bad Hbad).
  - intros e Hvalid Hfetch Hv.
    destruct (newPCRInfoLong_loop_valid pcrNums zeroMask Hvalid)
      as (mask & Hmask & _).
    exists mask. split; [ exact Hmask | ].
    unfold glog_after, newPCRInfoLong, bind, lift, log_V, glog_V.
    rewrite Hmask, Hfetch.
    destruct (Z.leb_spec 2 (verbosity g)); [ reflexivity | lia ].
Qed.

Lemma newPCRInfoLong_logging_witness :
  glog_after (newPCRInfoLong 6 unit (fun _ _ => Ok []) tt Byte.x00 [24])
             (mkGlog 9 []) = mkGlog 9 [] /\
  (exists mask,
     newPCRInfoLong_loop zeroMask [0] = Ok mask /\
     glog_after (newPCRInfoLong 6 unit
                   (fun _ _ => Err (errors_New "tpm: device unreachable"))
                   tt Byte.x00 [0])
                (mkGlog 2 []) =
     glog_Infof (mkGlog 2 []) "mask is % x\n" [ArgMask mask]) /\
  glog_after (newPCRInfoLong 6 unit (fun _ _ => Ok []) tt Byte.x00 [0])
             (mkGlog 1 []) = mkGlog 1 [].
Proof.
  split; [ | split ].
  - apply (proj1 (newPCRInfoLong_logging
                    6 unit (fun _ _ => Ok []) tt Byte.x00 [24] (mkGlog 9 []))
             24).
    reflexivity.
  - apply (proj1 (proj2 (newPCRInfoLong_logging
                           6 unit
                           (fun _ _ =>
                              Err (errors_New "tpm: device unreachable"))
                           tt Byte.x00 [0] (mkGlog 2 [])))
             (errors_New "tpm: device unreachable"));
      [ reflexivity | reflexivity | cbn; lia ].
  - apply (proj2 (proj2 (proj2 (proj2 (newPCRInfoLong_logging
                                         6 unit (fun _ _ => Ok []) tt
                                         Byte.x00 [0] (mkGlog 1 [])))))).
    cbn. lia.
Defined.

(** X13: when [newPCRInfoLong] succeeds.  It returns a record exactly when
    every index is in range and the value source returns bytes whose
    number is a multiple of 20; how many values arrive is not compared
    with how many PCRs the indices select. *)
Theorem newPCRInfoLong_succeeds_iff
        (tag : Z) (File : Type)
        (Fetch : File -> list Z -> result (list byte))
        (f : File) (loc : byte) (pcrNums : list Z) (g : glog) :
  is_ok (outcome (newPCRInfoLong tag File Fetch f loc pcrNums) g) = true <->
  (forall i, In i pcrNums -> 0 <= i < 24) /\
  exists pcrVals,
    Fetch f pcrNums = Ok pcrVals /\
    Z.of_nat (List.length pcrVals) mod 20 = 0.
Proof.
  rewrite newPCRInfoLong_outcome, <- first_invalid_None. split.
  - destruct (first_invalid pcrNums) as [bad | ] eqn:Hbad.
    { rewrite (newPCRInfoLong_loop_invalid _ _ bad Hbad). discriminate. }
    destruct (newPCRInfoLong_loop_valid pcrNums zeroMask Hbad)
      as (mask & -> & _).
    destruct (Fetch f pcrNums) as [pcrVals | e]; [ | discriminate ].
    intros Hok. split; [ reflexivity | ]. exists pcrVals.
    split; [ reflexivity | ].
    destruct (Z.eq_dec (Z.of_nat (List.length pcrVals) mod 20) 0) as [H | H];
      [ assumption | ].
    rewrite (createPCRInfoLong_Err tag loc mask pcrVals g
               (errors_New "pcrs must be a multiple of 20")) in Hok.
    + discriminate.
    + unfold outcome. now rewrite createPCRComposite_malformed.
  - intros (Hvalid & pcrVals & Hfetch & Hlen).
    destruct (newPCRInfoLong_loop_valid pcrNums zeroMask Hvalid)
      as (mask & -> & _).
    rewrite Hfetch.
    rewrite (createPCRInfoLong_Ok tag loc mask pcrVals g
               (sha1_Sum (composite_buffer mask pcrVals))).
    + reflexivity.
    + unfold outcome. now rewrite createPCRComposite_wellformed.
Qed.

Lemma newPCRInfoLong_succeeds_iff_witness :
  is_ok (outcome (newPCRInfoLong 6 unit (fun _ _ => Ok (repeat Byte.x00 20))
                                 tt Byte.x00 [0; 17; 23])
                 (mkGlog 0 [])) = true.
Proof.
  apply (proj2 (newPCRInfoLong_succeeds_iff
                  6 unit (fun _ _ => Ok (repeat Byte.x00 20)) tt Byte.x00
                  [0; 17; 23] (mkGlog 0 []))).
  split.
  - intros i [<- | [<- | [<- | []]]]; lia.
  - exists (repeat Byte.x00 20). split; reflexivity.
Defined.
